(** * just-install: the fetch / cache / extract / execute helpers of
    [pkg/justinstall/util.go], embedded shallowly.

    Every Go function of the file is a Rocq function of the same name.
    What the Go code obtains from the operating system, the network or a
    library (the process table, the HTTP exchange, the zip reader, the file
    system's willingness to create, close or rename a file) is an explicit
    argument or a [Section] variable, so that every theorem quantifies
    over all behaviours of the outside world. *)

From Stdlib Require Import ZArith Ascii String List Lia.
From stdpp Require Import base option list gmap strings.

Local Open Scope string_scope.
Local Open Scope list_scope.
Local Open Scope Z_scope.

(** ** Go string helpers used by the file *)

Module GoStrings.

(** [strings.Join]. *)
Definition Join (elems : list string) (sep : string) : string :=
  String.concat sep elems.

(** [strings.HasPrefix]. *)
Fixpoint HasPrefix (s p : string) {struct p} : bool :=
  match p with
  | EmptyString => true
  | String b p' =>
      match s with
      | EmptyString => false
      | String a s' => if Ascii.eqb a b then HasPrefix s' p' else false
      end
  end.

(** [strings.Contains]: [substr] occurs somewhere in [s]. *)
Fixpoint Contains (s substr : string) : bool :=
  HasPrefix s substr ||
  match s with
  | EmptyString => false
  | String _ s' => Contains s' substr
  end.

(** Drop the first [n] bytes. *)
Fixpoint drop (n : nat) (s : string) : string :=
  match n, s with
  | O, _ => s
  | S _, EmptyString => EmptyString
  | S n', String _ s' => drop n' s'
  end.

(** [strings.Cut]: split [s] at the first occurrence of [delim]. *)
Fixpoint cut (s delim : string) : option (string * string) :=
  if HasPrefix s delim then Some ("", drop (String.length delim) s)
  else match s with
       | EmptyString => None
       | String a s' =>
           match cut s' delim with
           | Some (before, after) => Some (String a before, after)
           | None => None
           end
       end.

(** The first [n] bytes, [s[:n]] capped at the length. *)
Fixpoint take (n : nat) (s : string) : string :=
  match n, s with
  | S n', String a s' => String a (take n' s')
  | _, _ => EmptyString
  end.

(** [strings.Replace s old new (-1)] for a non-empty [old]: every
    non-overlapping occurrence, scanning from the left.  [fuel] bounds
    the scan and [String.length s] is always enough. *)
Fixpoint ReplaceAll_go (fuel : nat) (s old new : string) : string :=
  match fuel with
  | O => s
  | S fuel' =>
      match s with
      | EmptyString => EmptyString
      | String a s' =>
          if HasPrefix s old
          then new +:+ ReplaceAll_go fuel' (drop (String.length old) s) old new
          else String a (ReplaceAll_go fuel' s' old new)
      end
  end.

Definition ReplaceAll (s old new : string) : string :=
  ReplaceAll_go (String.length s) s old new.

(** [strings.ToUpper] on ASCII strings: the letters [a-z] are mapped,
    other bytes are kept.  The library also maps the letters of other
    scripts, so this is [strings.ToUpper] on the strings of [is_ascii]
    only. *)
Definition upper_byte (a : ascii) : ascii :=
  let n := nat_of_ascii a in
  if (97 <=? n)%nat && (n <=? 122)%nat then ascii_of_nat (n - 32) else a.

Fixpoint ToUpper (s : string) : string :=
  match s with
  | EmptyString => EmptyString
  | String a s' => String (upper_byte a) (ToUpper s')
  end.

(** [strings.SplitN s sep 2] for the one-byte separator [sep]: the text
    before the first separator and the text after it, or the whole
    string alone when there is no separator. *)
Fixpoint SplitN2 (s : string) (sep : ascii) : list string :=
  match s with
  | EmptyString => [EmptyString]
  | String a s' =>
      if Ascii.eqb a sep then [EmptyString; s']
      else match SplitN2 s' sep with
           | [x] => [String a x]
           | x :: rest => String a x :: rest
           | [] => []
           end
  end.

End GoStrings.

(** ** Process runner: [system] *)

Module Runner.

(** [*exec.Cmd] as built by [exec.Command]. *)
Record Cmd := { Path : string; Args : list string }.

(** [exec.Command(name, arg...)]. *)
Definition Command (name : string) (arg : list string) : Cmd :=
  {| Path := name; Args := name :: arg |}.

(** What the operating system does with a command. *)
Inductive behaviour :=
| CannotStart (msg : string)      (* [cmd.Start] returns an error *)
| Exited (code : Z)               (* the child ran and exited with [code] *)
| ExitedOpaque                    (* unsuccessful exit without a [syscall.WaitStatus] *)
| WaitFailed (msg : string).      (* [cmd.Wait] fails otherwise *)

(** The Go [error] values [system] can return. *)
Inductive error :=
| StartError (msg : string)
| ExitError (status : option Z)   (* [*exec.ExitError]; [Sys()] when it is a [WaitStatus] *)
| OtherError (msg : string).

(** [cmd.Start]. *)
Definition Start (b : behaviour) : option error :=
  match b with
  | CannotStart msg => Some (StartError msg)
  | _ => None
  end.

(** [cmd.Wait] of a started command: [nil] exactly for exit status 0,
    an [*exec.ExitError] for every other exit. *)
Definition Wait (b : behaviour) : option error :=
  match b with
  | CannotStart msg => Some (OtherError "exec: not started")
  | Exited code => if code =? 0 then None else Some (ExitError (Some code))
  | ExitedOpaque => Some (ExitError None)
  | WaitFailed msg => Some (OtherError msg)
  end.

Section WithOS.

(** The operating system: how each command behaves when run. *)
Variable os : Cmd -> behaviour.

(** [system(args ...string) error], with the lines it logs. *)
Definition system (args : list string) : list string * option error :=
  match args with
  | [] => ([], None)
  | name :: rest =>
      let cmd := Command name rest in
      let log := ["Running " +:+ GoStrings.Join args " "] in
      match Start (os cmd) with
      | Some err => (log, Some err)
      | None =>
          match Wait (os cmd) with
          | Some err =>
              match err with
              | ExitError sys =>
                  match sys with
                  | None => (log, Some err)
                  | Some status =>
                      if negb (status =? 3010) then (log, Some err)
                      else (log ++ ["Exit code 3010, needs reboot to complete install."],
                            None)
                  end
              | _ => (log, Some err)
              end
          | None => (log, None)
          end
      end
  end.

End WithOS.

(** An operating system for examples: [msiexec] installs and asks for a
    reboot, every other command exits with 1. *)
Definition msiexec_os (c : Cmd) : behaviour :=
  if String.eqb (Path c) "msiexec" then Exited 3010 else Exited 1.

End Runner.

(** ** String expander: [environMap] and [expandString] *)

Module Expand.
Import GoStrings.

(** How a Go call ends. *)
Inductive outcome (A : Type) :=
| Returned (a : A)
| Panicked (why : string)
| NotModelled.
Arguments Returned {A} a.
Arguments Panicked {A} why.
Arguments NotModelled {A}.

(** One iteration of the loop of [environMap] on the entry [v]; [None]
    is the run-time panic of [split[1]] on an entry without ["="]. *)
Definition environMap_step (ret : gmap string string) (v : string)
    : option (gmap string string) :=
  match SplitN2 v "=" with
  | [k; val] =>
      if String.eqb k "" && String.eqb val "" then Some ret
      else Some (<[ReplaceAll (ToUpper k) "(X86)" "_X86" := val]> ret)
  | _ => None
  end.

(** [environMap], on the result [env] of [os.Environ()]. *)
Fixpoint environMap_loop (ret : gmap string string) (env : list string)
    : option (gmap string string) :=
  match env with
  | [] => Some ret
  | v :: env' =>
      match environMap_step ret v with
      | Some ret' => environMap_loop ret' env'
      | None => None
      end
  end.

Definition environMap (env : list string) : option (gmap string string) :=
  environMap_loop ∅ env.

(** *** The part of [text/template] the expander is used with

    Templates made of literal text and of actions [{{.NAME}}] that print
    one field of the data, with blanks allowed between the braces and
    the field.  Any other action is reported as [OutsideFragment] and
    no theorem speaks about it. *)

Inductive node :=
| TextNode (text : string)
| FieldNode (name : string).

Inductive parse_result :=
| Parsed (nodes : list node)
| ParseError                      (* [Parse] returns an error *)
| OutsideFragment.

(** The blanks skipped inside an action: space and tab.  A line break
    inside an action is accepted by later versions of [text/template]
    only, so an action holding one is left outside the fragment. *)
Definition is_space (a : ascii) : bool :=
  let n := nat_of_ascii a in
  (n =? 32)%nat || (n =? 9)%nat.

Definition is_letter (a : ascii) : bool :=
  let n := nat_of_ascii a in
  ((65 <=? n) && (n <=? 90))%nat || ((97 <=? n) && (n <=? 122))%nat
  || (n =? 95)%nat.

Definition is_digit (a : ascii) : bool :=
  let n := nat_of_ascii a in ((48 <=? n) && (n <=? 57))%nat.

Fixpoint all_bytes (p : ascii -> bool) (s : string) : bool :=
  match s with
  | EmptyString => true
  | String a s' => p a && all_bytes p s'
  end.

Fixpoint trim_left (s : string) : string :=
  match s with
  | String a s' => if is_space a then trim_left s' else s
  | EmptyString => EmptyString
  end.

Fixpoint trim_right (s : string) : string :=
  match s with
  | EmptyString => EmptyString
  | String a s' =>
      match trim_right s' with
      | EmptyString => if is_space a then EmptyString else String a EmptyString
      | t => String a t
      end
  end.

(** A field name: a letter or underscore, then letters, digits and
    underscores. *)
Definition is_identifier (s : string) : bool :=
  match s with
  | EmptyString => false
  | String a s' => is_letter a && all_bytes (fun b => is_letter b || is_digit b) s'
  end.

(** The field an action body refers to, when the body is [.NAME]
    between blanks. *)
Definition field_of (action : string) : option string :=
  match trim_right (trim_left action) with
  | String "." name => if is_identifier name then Some name else None
  | _ => None
  end.

Fixpoint parse_go (fuel : nat) (s : string) : parse_result :=
  match fuel with
  | O => OutsideFragment
  | S fuel' =>
      match cut s "{{" with
      | None => Parsed [TextNode s]
      | Some (text, rest) =>
          match cut rest "}}" with
          | None => ParseError          (* unclosed action *)
          | Some (action, rest') =>
              match field_of action with
              | None => OutsideFragment
              | Some name =>
                  match parse_go fuel' rest' with
                  | Parsed nodes => Parsed (TextNode text :: FieldNode name :: nodes)
                  | r => r
                  end
              end
          end
      end
  end.

(** [template.New("expand").Parse(s)]. *)
Definition Parse (s : string) : parse_result :=
  parse_go (S (String.length s)) s.

(** What [Execute] prints for one node over [data], a
    [map[string]string] and the template's default [missingkey] option:
    a key that is absent prints as ["<no value>"]. *)
Definition print_node (data : gmap string string) (n : node) : string :=
  match n with
  | TextNode text => text
  | FieldNode name =>
      match data !! name with
      | Some v => v
      | None => "<no value>"
      end
  end.

(** [Execute(&buf, data)] followed by [buf.String()]. *)
Definition Execute (nodes : list node) (data : gmap string string) : string :=
  String.concat "" (map (print_node data) nodes).

(** [expandString(s, context)], where [env] is [os.Environ()].  The merge
    loop [data[k] = v] makes [context] win over the environment. *)
Definition expandString (env : list string) (s : string)
    (context : gmap string string) : outcome string :=
  match environMap env with
  | None => Panicked "index out of range"
  | Some data =>
      let data := context ∪ data in
      match Parse s with
      | ParseError => Panicked "template.Must"
      | OutsideFragment => NotModelled
      | Parsed nodes => Returned (Execute nodes data)
      end
  end.

(** *** Templates written out from their parts *)

Definition not_byte (c a : ascii) : bool := negb (Ascii.eqb a c).

(** A reference as it stands in a template: the literal text before
    it, then the action, [{{] blanks [.field] blanks [}}]. *)
Record reference := {
  text_before : string;
  blank_left : string;
  field : string;
  blank_right : string
}.

(** [written [r1; r2] t] is the template
    [text1{{ .field1 }}text2{{ .field2 }}t]. *)
Fixpoint written (refs : list reference) (last : string) : string :=
  match refs with
  | [] => last
  | r :: refs' =>
      text_before r +:+ "{{" +:+ blank_left r +:+ "." +:+ field r
        +:+ blank_right r +:+ "}}" +:+ written refs' last
  end.



(** The value a reference to [name] is replaced by. *)
Definition merged_value (context data : gmap string string) (name : string)
    : string :=
  match context !! name with
  | Some v => v
  | None => match data !! name with
            | Some v => v
            | None => "<no value>"
            end
  end.



(** *** Names of environment variables *)

(** The key [environMap] files a variable under: upper case, with
    [(X86)] rewritten. *)
Definition normalized (name : string) : string :=
  ReplaceAll (ToUpper name) "(X86)" "_X86".

Definition is_lower (a : ascii) : bool :=
  let n := nat_of_ascii a in ((97 <=? n) && (n <=? 122))%nat.

(** No byte of [s] is an ASCII lower-case letter. *)
Definition no_lower (s : string) : bool :=
  all_bytes (fun a => negb (is_lower a)) s.

(** Every byte of [s] is ASCII, where [strings.ToUpper] changes the
    letters [a-z] only. *)
Definition is_ascii (s : string) : bool :=
  all_bytes (fun a => (nat_of_ascii a <? 128)%nat) s.

End Expand.

(** ** The expander over the libraries as they are

    [strings.ToUpper] maps the letters of every script, where
    [GoStrings.ToUpper] follows it on ASCII names only; and
    [text/template] has more actions than the references the expander
    is used with.  Here both are taken as they come from the library,
    so that what is proved holds of every environment and of every
    template string.  On templates of literal text and references,
    and on environments with ASCII names, [Expander.expandString] at
    [GoStrings.ToUpper] is [Expand.expandString]. *)

Module Expander.
Import GoStrings Expand.

Section WithLibraries.

(** [strings.ToUpper]. *)
Variable strings_ToUpper : string -> string.

(** [Parse] and [Execute] on a template that holds other actions than
    references, over the merged data: [None] when [Parse] returns an
    error, else what [Execute] has written to the buffer when it
    returns, with or without an error. *)
Variable template_other : string -> gmap string string -> option string.

(** One iteration of the loop of [environMap]. *)
Definition environMap_step (ret : gmap string string) (v : string)
    : option (gmap string string) :=
  match SplitN2 v "=" with
  | [k; val] =>
      if String.eqb k "" && String.eqb val "" then Some ret
      else Some (<[ReplaceAll (strings_ToUpper k) "(X86)" "_X86" := val]> ret)
  | _ => None
  end.

Fixpoint environMap_loop (ret : gmap string string) (env : list string)
    : option (gmap string string) :=
  match env with
  | [] => Some ret
  | v :: env' =>
      match environMap_step ret v with
      | Some ret' => environMap_loop ret' env'
      | None => None
      end
  end.

(** [environMap], on the result [env] of [os.Environ()]. *)
Definition environMap (env : list string) : option (gmap string string) :=
  environMap_loop ∅ env.

(** [expandString(s, context)], where [env] is [os.Environ()].
    [template.Must] panics on the error of [Parse]; the error of
    [Execute] is dropped and the buffer returned. *)
Definition expandString (env : list string) (s : string)
    (context : gmap string string) : outcome string :=
  match environMap env with
  | None => Panicked "index out of range"
  | Some data =>
      let data := context ∪ data in
      match Parse s with
      | ParseError => Panicked "template.Must"
      | Parsed nodes => Returned (Execute nodes data)
      | OutsideFragment =>
          match template_other s data with
          | None => Panicked "template.Must"
          | Some written => Returned written
          end
      end
  end.

End WithLibraries.

End Expander.

(** ** CRC32 of a string as upper-case hexadecimal: [crc32s] *)

Module Crc.

(** The reversed IEEE polynomial, [crc32.IEEE]. *)
Definition IEEE : Z := 0xedb88320.

(** One of the eight shift steps that build a table entry. *)
Definition shift_step (crc : Z) : Z :=
  if Z.testbit crc 0 then Z.lxor (Z.shiftr crc 1) IEEE else Z.shiftr crc 1.

(** Entry [i] of the table [crc32.IEEETable]. *)
Definition table (i : Z) : Z := Nat.iter 8 shift_step i.

Definition byte_of (a : ascii) : Z := Z.of_N (N_of_ascii a).

(** The loop of [crc32.Update] over the bytes of [p], on the
    complemented register. *)
Fixpoint update_loop (crc : Z) (p : string) : Z :=
  match p with
  | EmptyString => crc
  | String v p' =>
      update_loop
        (Z.lxor (table (Z.lxor (Z.land crc 0xff) (byte_of v))) (Z.shiftr crc 8)) p'
  end.

(** [crc32.Update(crc, IEEETable, p)] on 32-bit registers. *)
Definition Update (crc : Z) (p : string) : Z :=
  Z.lxor (update_loop (Z.lxor crc 0xffffffff) p) 0xffffffff.

(** [crc32.NewIEEE()], [Write] and [Sum32]. *)
Definition ChecksumIEEE (s : string) : Z := Update 0 s.

Definition hex_digit (d : Z) : ascii :=
  if d <? 10 then ascii_of_N (Z.to_N (48 + d)) else ascii_of_N (Z.to_N (55 + d)).

(** [fmt.Sprintf("%X", n)] for an unsigned [n]: upper-case digits, most
    significant first, no padding. *)
Fixpoint hex_go (fuel : nat) (n : Z) (acc : string) : string :=
  match fuel with
  | O => acc
  | S fuel' =>
      let acc' := String (hex_digit (n mod 16)) acc in
      if n / 16 =? 0 then acc' else hex_go fuel' (n / 16) acc'
  end.

Definition SprintfX (n : Z) : string := hex_go 8 n "".

(** [crc32s]. *)
Definition crc32s (s : string) : string := SprintfX (ChecksumIEEE s).

(** Reading upper-case hexadecimal back: the value of a digit, and of a
    string of digits after the value [acc] read so far. *)
Definition digit_value (a : ascii) : Z :=
  let n := Z.of_N (N_of_ascii a) in
  if (48 <=? n) && (n <=? 57) then n - 48
  else if (65 <=? n) && (n <=? 70) then n - 55
  else 0.

Definition is_upper_hex (a : ascii) : bool :=
  let n := Z.of_N (N_of_ascii a) in
  ((48 <=? n) && (n <=? 57)) || ((65 <=? n) && (n <=? 70)).

Fixpoint hex_value_go (acc : Z) (s : string) : Z :=
  match s with
  | EmptyString => acc
  | String a s' => hex_value_go (acc * 16 + digit_value a) s'
  end.

Definition hex_value (s : string) : Z := hex_value_go 0 s.

Fixpoint all_upper_hex (s : string) : bool :=
  match s with
  | EmptyString => true
  | String a s' => is_upper_hex a && all_upper_hex s'
  end.

End Crc.

(** ** Content fetcher: [CustomGet] *)

Module Fetch.
Import GoStrings.

Record Cookie := { Name : string; Value : string }.

(** [*http.Request]: [Header.Set] keeps one value per header name. *)
Record Request := {
  Method : string;
  URL : string;
  Header : gmap string string
}.

(** [*http.Client]: the cookie jar as the [SetCookies] calls made on it
    (base URL and cookies), and the timeout when one was set. *)
Record Client := {
  Jar : list (string * list Cookie);
  Timeout : option Z
}.

Record Response := {
  StatusCode : Z;
  ContentLength : option Z;       (* [strconv.Atoi] of the header, when it parses *)
  Body : string
}.

Definition oracleCookies : list Cookie :=
  [{| Name := "oraclelicense"; Value := "accept-securebackup-cookie" |}].

Section WithLibraries.

(** [url.Parse]: the path of the parsed URL, [None] for an error. *)
Variable url_Parse : string -> option string.

(** [fetch.NewClient()], a function of the repository outside
    [util.go]. *)
Variable NewClient : Client.

(** [http.NewRequest("GET", urlStr, nil)] fails exactly when the
    URL does not parse. *)
Definition NewRequest (method urlStr : string) : option Request :=
  match url_Parse urlStr with
  | Some _ => Some {| Method := method; URL := urlStr; Header := ∅ |}
  | None => None
  end.

Definition Header_Set (k v : string) (r : Request) : Request :=
  {| Method := Method r; URL := URL r; Header := <[k := v]> (Header r) |}.

Definition SetCookies (u : string) (cookies : list Cookie) (c : Client) : Client :=
  {| Jar := Jar c ++ [(u, cookies)]; Timeout := Timeout c |}.

(** The client and request [CustomGet] hands to [client.Do]; [None]
    when it returns the error of [http.NewRequest] instead. *)
Definition CustomGet_dispatch (urlStr : string) (timeout : list Z)
    : option (Client * Request) :=
  match NewRequest "GET" urlStr with
  | None => None
  | Some request =>
      let request :=
        if Contains urlStr "download-codeplex.sec.s-msft.com"
        then Header_Set "User-Agent" "chocolatey command line" request
        else request in
      let request :=
        if Contains urlStr "ati.com"
        then Header_Set "Referer" "http://support.amd.com/" request
        else request in
      let jar := {| Jar := []; Timeout := None |} in
      let jar := SetCookies "http://download.oracle.com" oracleCookies jar in
      let jar := SetCookies "https://edelivery.oracle.com" oracleCookies jar in
      let client := {| Jar := Jar jar; Timeout := Timeout NewClient |} in
      let client :=
        match timeout with
        | t :: _ => {| Jar := Jar client; Timeout := Some t |}
        | [] => client
        end in
      Some (client, request)
  end.

(** [CustomGet], over the network [Do] that answers a dispatched
    request with a response or a transport error. *)
Definition CustomGet (Do : Client -> Request -> option Response)
    (urlStr : string) (timeout : list Z) : option Response :=
  match CustomGet_dispatch urlStr timeout with
  | None => None
  | Some (client, request) => Do client request
  end.

End WithLibraries.

End Fetch.

(** ** Cache manager: [download], [maybeDownload], [downloadTemp],
       [downloadExt] *)

Module Cache.
Import GoStrings Fetch Crc.

(** The system calls and network exchanges a download performs, with
    their outcome. *)
Inductive event :=
| EvCreate (path : string) (ok : bool)                 (* [os.Create] *)
| EvDo (client : Client) (request : Request)           (* [client.Do] *)
| EvWrite (path : string) (data : string)              (* bytes [io.Copy] wrote *)
| EvClose (path : string) (ok : bool)                  (* [destination.Close] *)
| EvRename (oldpath newpath : string) (ok : bool).     (* [os.Rename] *)

(** The effect of one event on the files (path to content). *)
Definition apply_event (e : event) (files : gmap string string)
    : gmap string string :=
  match e with
  | EvCreate path true => <[path := ""]> files
  | EvWrite path data =>
      match files !! path with
      | Some old => <[path := old +:+ data]> files
      | None => files
      end
  | EvRename oldpath newpath true =>
      match files !! oldpath with
      | Some content => <[newpath := content]> (delete oldpath files)
      | None => files
      end
  | _ => files
  end.

Record world := {
  files : gmap string string;
  trace : list event
}.

(** The world changes only by events. *)
Definition emit (e : event) (w : world) : world :=
  {| files := apply_event e (files w); trace := trace w ++ [e] |}.

(** How the outside world behaves during one download. *)
Record conditions := {
  create_ok : bool;                                   (* [os.Create] succeeds *)
  net : Client -> Request -> option Response;         (* the answer to [client.Do] *)
  copy_stops : option nat;                            (* [io.Copy] fails after so many bytes *)
  close_ok : bool;                                    (* [Close] succeeds *)
  rename_ok : bool                                    (* [os.Rename] succeeds *)
}.

(** The calls of [log.Fatalf], which end the process. *)
Inductive fatal :=
| UnableToParseURL (rawurl : string)
| UnableToOpenDestination (path : string)
| UnableToOpenConnection (rawurl : string)
| UnexpectedStatus (code : Z)
| ErrorDownloading
| CannotClose
| CannotRename (oldpath newpath : string).

Inductive result (A : Type) :=
| Ok (a : A)
| Fatal (f : fatal).
Arguments Ok {A} a.
Arguments Fatal {A} f.

(** Computations on the world that may end the process. *)
Definition M (A : Type) : Type := world -> result A * world.

Definition ret {A} (a : A) : M A := fun w => (Ok a, w).

Definition bind {A B} (m : M A) (k : A -> M B) : M B :=
  fun w =>
    match m w with
    | (Ok a, w') => k a w'
    | (Fatal f, w') => (Fatal f, w')
    end.

Definition log_Fatalf {A} (f : fatal) : M A := fun w => (Fatal f, w).

Definition perform (e : event) : M unit := fun w => (Ok tt, emit e w).

Declare Scope go_scope.
Delimit Scope go_scope with go.
Notation "x <- m ;; k" := (bind m (fun x => k))
  (at level 100, m at next level, right associativity) : go_scope.
Notation "m ;; k" := (bind m (fun _ => k))
  (at level 100, right associativity) : go_scope.
Local Open Scope go_scope.

(** The total handed to [pb.New]: the declared content length when the
    header parses, else 0. *)
Definition progress_total (response : Response) : Z :=
  match ContentLength response with
  | Some contentLength => contentLength
  | None => 0
  end.

(** [dry.FileExists]. *)
Definition FileExists (path : string) : M bool :=
  fun w => (Ok (bool_decide (is_Some (files w !! path))), w).

(** A sequence of events, one after the other. *)
Definition replay (evs : list event) (w : world) : world :=
  fold_left (fun w e => emit e w) evs w.

(** The paths whose file an event can change. *)
Definition touched (e : event) : list string :=
  match e with
  | EvCreate path true => [path]
  | EvWrite path _ => [path]
  | EvRename oldpath newpath true => [oldpath; newpath]
  | _ => []
  end.

Definition is_Do (e : event) : bool :=
  match e with EvDo _ _ => true | _ => false end.

Section WithLibraries.

(** [url.Parse] (the parsed URL's [Path]) and [fetch.NewClient()]. *)
Variable url_Parse : string -> option string.
Variable NewClient : Client.

(** The package constant [tempPath], [filepath.Join] and
    [os.IsPathSeparator]. *)
Variable tempPath : string.
Variable filepath_Join : string -> string -> string.
Variable IsPathSeparator : ascii -> bool.

(** The loop of [filepath.Ext], from the last byte backwards. *)
Fixpoint Ext_scan (reversed : list ascii) (suffix : string) : string :=
  match reversed with
  | [] => ""
  | a :: before =>
      if IsPathSeparator a then ""
      else if Ascii.eqb a "." then String a suffix
      else Ext_scan before (String a suffix)
  end.

(** [filepath.Ext]. *)
Definition Ext (path : string) : string :=
  Ext_scan (rev (list_ascii_of_string path)) "".

Section Download.

Variable c : conditions.

Definition os_Create (path : string) : M bool :=
  perform (EvCreate path (create_ok c)) ;; ret (create_ok c).

(** [CustomGet(rawurl)] inside a download. *)
Definition get (rawurl : string) : M (option Response) :=
  match CustomGet_dispatch url_Parse NewClient rawurl [] with
  | None => ret None
  | Some (client, request) =>
      perform (EvDo client request) ;; ret (net c client request)
  end.

(** [io.Copy(writer, response.Body)]: the bytes written to the
    destination and whether the copy completed.  The other half of the
    [io.MultiWriter], the progress bar, only counts the bytes. *)
Definition io_Copy (path body : string) : M bool :=
  match copy_stops c with
  | Some n => perform (EvWrite path (take n body)) ;; ret false
  | None => perform (EvWrite path body) ;; ret true
  end.

Definition Close (path : string) : M bool :=
  perform (EvClose path (close_ok c)) ;; ret (close_ok c).

Definition os_Rename (oldpath newpath : string) : M bool :=
  perform (EvRename oldpath newpath (rename_ok c)) ;; ret (rename_ok c).

(** [download(rawurl, destinationPath)].  The deferred calls do not
    run when [log.Fatalf] ends the process, and on the normal path
    they close what is already closed or only end the progress
    bar. *)
Definition download (rawurl destinationPath : string) : M unit :=
  let tempDestinationPath := destinationPath +:+ ".tmp" in
  created <- os_Create tempDestinationPath ;;
  if negb created then log_Fatalf (UnableToOpenDestination tempDestinationPath)
  else
    response <- get rawurl ;;
    match response with
    | None => log_Fatalf (UnableToOpenConnection rawurl)
    | Some response =>
        if negb (StatusCode response =? 200)
        then log_Fatalf (UnexpectedStatus (StatusCode response))
        else
          copied <- io_Copy tempDestinationPath (Body response) ;;
          if negb copied then log_Fatalf ErrorDownloading
          else
            closed <- Close tempDestinationPath ;;
            if negb closed then log_Fatalf CannotClose
            else
              renamed <- os_Rename tempDestinationPath destinationPath ;;
              if negb renamed
              then log_Fatalf (CannotRename tempDestinationPath destinationPath)
              else ret tt
    end.

(** [maybeDownload]. *)
Definition maybeDownload (rawurl destinationPath : string) (force : bool)
    : M unit :=
  exists_ <- FileExists destinationPath ;;
  if negb exists_ || force then download rawurl destinationPath
  else ret tt.

(** [downloadTemp]. *)
Definition downloadTemp (rawurl filename : string) (force : bool) : M string :=
  let ret_ := filepath_Join tempPath filename in
  maybeDownload rawurl ret_ force ;;
  ret ret_.

(** [downloadExt]. *)
Definition downloadExt (rawurl ext : string) (force : bool) : M string :=
  match url_Parse rawurl with
  | None => log_Fatalf (UnableToParseURL rawurl)
  | Some u_Path =>
      let base :=
        if negb (String.eqb ext "") then crc32s rawurl +:+ ext
        else crc32s rawurl +:+ Ext u_Path in
      downloadTemp rawurl base force
  end.

(** [downloadAutoExt]. *)
Definition downloadAutoExt (rawurl : string) (force : bool) : M string :=
  downloadExt rawurl "" force.

End Download.

(** What a download does, by cases on the conditions: its result and
    the events it performs. *)
Definition download_plan (c : conditions) (rawurl dst : string)
    : result unit * list event :=
  let tmp := dst +:+ ".tmp" in
  if create_ok c then
    match CustomGet_dispatch url_Parse NewClient rawurl [] with
    | None => (Fatal (UnableToOpenConnection rawurl), [EvCreate tmp true])
    | Some (client, request) =>
        match net c client request with
        | None => (Fatal (UnableToOpenConnection rawurl),
                   [EvCreate tmp true; EvDo client request])
        | Some response =>
            if StatusCode response =? 200 then
              match copy_stops c with
              | Some n =>
                  (Fatal ErrorDownloading,
                   [EvCreate tmp true; EvDo client request;
                    EvWrite tmp (take n (Body response))])
              | None =>
                  if close_ok c then
                    (if rename_ok c then Ok tt else Fatal (CannotRename tmp dst),
                     [EvCreate tmp true; EvDo client request;
                      EvWrite tmp (Body response); EvClose tmp true;
                      EvRename tmp dst (rename_ok c)])
                  else
                    (Fatal CannotClose,
                     [EvCreate tmp true; EvDo client request;
                      EvWrite tmp (Body response); EvClose tmp false])
              end
            else (Fatal (UnexpectedStatus (StatusCode response)),
                  [EvCreate tmp true; EvDo client request])
        end
    end
  else (Fatal (UnableToOpenDestination tmp), [EvCreate tmp false]).

(** The cache path in the words of the specification: the
    temporary-files root joined with the upper-case hexadecimal CRC32
    of the URL followed by the explicit extension when one is given,
    else by the extension of the URL's path. *)
Definition cachePath_spec (rawurl ext : string) : option string :=
  match url_Parse rawurl with
  | None => None
  | Some path =>
      Some (filepath_Join tempPath
              (SprintfX (ChecksumIEEE rawurl)
               +:+ (if String.eqb ext "" then Ext path else ext)))
  end.

End WithLibraries.

(** *** A concrete setting for examples

    A Windows machine: [tempPath] is [C:\Temp], paths are joined with a
    backslash, and the URLs used are of the plain form
    [scheme://host/path]. *)

Definition windows_IsPathSeparator (a : ascii) : bool :=
  Ascii.eqb a "\" || Ascii.eqb a "/".

Definition windows_Join (dir name : string) : string := dir +:+ "\" +:+ name.

(** A stand-in for [url.Parse] in the examples, right on URLs of the
    form [scheme://host/path] without query or fragment (it would keep
    them in the path). *)
Definition plain_url_Path (rawurl : string) : option string :=
  match cut rawurl "://" with
  | Some (_, rest) =>
      match cut rest "/" with
      | Some (_, path) => Some ("/" +:+ path)
      | None => Some ""
      end
  | None => None
  end.

Definition plain_client : Client := {| Jar := []; Timeout := None |}.

(** Conditions under which nothing fails and the server answers
    [response]. *)
Definition answering (response : Response) : conditions :=
  {| create_ok := true; net := fun _ _ => Some response; copy_stops := None;
     close_ok := true; rename_ok := true |}.

(** Conditions under which the server answers [response] and the copy of
    the body breaks after [n] bytes. *)
Definition interrupted (response : Response) (n : nat) : conditions :=
  {| create_ok := true; net := fun _ _ => Some response; copy_stops := Some n;
     close_ok := true; rename_ok := true |}.

(** Conditions under which the temporary file cannot be created
    (a read-only or full temporary directory), the server being ready to
    answer [response]. *)
Definition unwritable (response : Response) : conditions :=
  {| create_ok := false; net := fun _ _ => Some response; copy_stops := None;
     close_ok := true; rename_ok := true |}.

Definition empty_world : world := {| files := ∅; trace := [] |}.

(** A world whose cache already holds [content] at [path]. *)
Definition cached_world (path content : string) : world :=
  {| files := {[path := content]}; trace := [] |}.

(** The installer served in the examples. *)
Definition setup_exe : Response :=
  {| StatusCode := 200; ContentLength := Some 5; Body := "MZ..." |}.

End Cache.

(** ** Archive extractor: [extractZip] *)

Module Zip.
Import GoStrings.

(** The file system: cleaned paths, as the list of their components from
    the root down, mapped to a regular file with its content or to a
    directory with its permission bits.  The root [[]] is always a
    directory, and a relative path is read from the working directory
    as root. *)
Inductive node :=
| File (content : string)
| Dir (perm : Z).

Definition is_dir (fs : gmap (list string) node) (p : list string) : Prop :=
  p = [] \/ exists perm, fs !! p = Some (Dir perm).

Definition is_file (fs : gmap (list string) node) (p : list string) : Prop :=
  exists content, fs !! p = Some (File content).

Definition is_dirb (fs : gmap (list string) node) (p : list string) : bool :=
  match p, fs !! p with
  | [], _ => true
  | _, Some (Dir _) => true
  | _, _ => false
  end.

(** What reading an opened entry delivers: the bytes, and whether the
    stream ended without error. *)
Record stream := { delivered : string; complete : bool }.

(** [*zip.File]: the header fields the extractor reads and the outcome
    of [Open()], [None] when it returns an error. *)
Record zipFile := {
  Name : string;
  IsDir : bool;                   (* [FileInfo().IsDir()] *)
  Mode : Z;                       (* [Mode()] *)
  Open : option stream
}.

Inductive error :=
| OpenReaderError                                     (* [zip.OpenReader] *)
| CreateError (path : list string)                    (* [os.Create] *)
| OpenError (name : string).                          (* [zipFile.Open] *)

(** The octal permission constants [0777] and [0700]. *)
Definition perm_0777 : Z := 511.
Definition perm_0700 : Z := 448.

(** One step of [filepath.Clean] over the components: empty and [.]
    components vanish, [..] removes the component before it.  This is
    [filepath.Clean] as long as [..] has a named directory to remove:
    the library keeps a [..] that leads a relative path and never
    removes a volume name, where this step drops the [..] or removes
    the volume name like any component.  What is stated of the place
    of a joined path keeps to paths without such a [..]. *)
Definition clean_step (stack : list string) (component : string) : list string :=
  if String.eqb component "" || String.eqb component "." then stack
  else if String.eqb component ".." then removelast stack
  else stack ++ [component].

(** [filepath.Dir] of a cleaned path. *)
Definition Dir_ (p : list string) : list string := removelast p.

Section WithOS.

Variable IsPathSeparator : ascii -> bool.

(** [os.Mkdir] and [os.Create] refused by the system for a reason of
    its own (permissions, a full disk). *)
Variable mkdir_denied : list string -> bool.
Variable create_denied : list string -> bool.

(** [zip.OpenReader(path)]: the entries of the central directory, or
    [None] for an error (missing file, malformed headers). *)
Variable zip_OpenReader : string -> option (list zipFile).

(** The components of a path string, empty ones included. *)
Fixpoint components (s : string) : list string :=
  match s with
  | EmptyString => [EmptyString]
  | String a s' =>
      if IsPathSeparator a then EmptyString :: components s'
      else match components s' with
           | x :: rest => String a x :: rest
           | [] => [String a EmptyString]
           end
  end.

(** [filepath.Clean]. *)
Definition Clean (s : string) : list string :=
  fold_left clean_step (components s) [].

(** [filepath.Join(dir, name)] for an already cleaned [dir]. *)
Definition Join (dir : list string) (name : string) : list string :=
  fold_left clean_step (components name) dir.

(** [os.MkdirAll(done/todo, perm)], the directories down to [done]
    being there: each missing directory is made with [perm], and a
    regular file on the way is an error.  The result says whether the
    call succeeded; what was made before a failure stays.  The bits
    recorded are the ones asked for, before the umask of the process
    is taken off them. *)
Fixpoint MkdirAll_go (fs : gmap (list string) node) (done todo : list string)
    (perm : Z) : gmap (list string) node * bool :=
  match todo with
  | [] => (fs, true)
  | component :: todo' =>
      let q := done ++ [component] in
      match fs !! q with
      | Some (Dir _) => MkdirAll_go fs q todo' perm
      | Some (File _) => (fs, false)
      | None =>
          if mkdir_denied q then (fs, false)
          else MkdirAll_go (<[q := Dir perm]> fs) q todo' perm
      end
  end.

Definition MkdirAll (fs : gmap (list string) node) (p : list string) (perm : Z)
    : gmap (list string) node * bool :=
  MkdirAll_go fs [] p perm.

(** [os.Create(p)]: needs the parent directory, fails on a directory,
    truncates or creates the file. *)
Definition Create (fs : gmap (list string) node) (p : list string)
    : option (gmap (list string) node) :=
  if create_denied p then None
  else match p with
       | [] => None
       | _ =>
           if is_dirb fs (Dir_ p) then
             match fs !! p with
             | Some (Dir _) => None
             | _ => Some (<[p := File ""]> fs)
             end
           else None
       end.

(** The body of the loop over [zipReader.File].  The results of both
    [os.MkdirAll] calls and of [io.Copy] are dropped, as in the
    source: the file keeps whatever bytes the copy delivered. *)
Fixpoint extract_entries (extractTo : list string) (entries : list zipFile)
    (fs : gmap (list string) node) : option error * gmap (list string) node :=
  match entries with
  | [] => (None, fs)
  | zipFile :: rest =>
      let destinationPath := Join extractTo (Name zipFile) in
      if IsDir zipFile then
        extract_entries extractTo rest
          (fst (MkdirAll fs destinationPath (Mode zipFile)))
      else
        let fs := fst (MkdirAll fs (Dir_ destinationPath) perm_0777) in
        match Create fs destinationPath with
        | None => (Some (CreateError destinationPath), fs)
        | Some fs =>
            match Open zipFile with
            | None => (Some (OpenError (Name zipFile)), fs)
            | Some source =>
                extract_entries extractTo rest
                  (<[destinationPath := File (delivered source)]> fs)
            end
        end
  end.

(** [extractZip(path, extractTo)]. *)
Definition extractZip (path extractTo : string) (fs : gmap (list string) node)
    : option error * gmap (list string) node :=
  let fs := fst (MkdirAll fs (Clean extractTo) perm_0700) in
  match zip_OpenReader path with
  | None => (Some OpenReaderError, fs)
  | Some entries => extract_entries (Clean extractTo) entries fs
  end.

(** *** Archives the extractor reproduces *)

(** Where an entry goes. *)
Definition target (extractTo : list string) (zf : zipFile) : list string :=
  Join extractTo (Name zf).

(** A way on which every directory can be made: no regular file
    stands on it and the system refuses none of its directories. *)
Definition way_free (fs : gmap (list string) node) (p : list string) : Prop :=
  forall q, q `prefix_of` p -> ~ is_file fs q /\ mkdir_denied q = false.

(** An entry that [fs] lets the extractor process: the way to a
    directory entry's target, or to the parent of a file entry's, is
    free; and for a file entry, the target is a path below the root
    that is neither the target directory nor above it, is not already
    a directory, may be created, and the entry opens and streams to
    its end. *)
Definition entry_ready (extractTo : list string)
    (fs : gmap (list string) node) (zf : zipFile) : Prop :=
  let p := target extractTo zf in
  if IsDir zf then way_free fs p
  else
    p <> [] /\ ~ p `prefix_of` extractTo /\ create_denied p = false /\
    way_free fs (Dir_ p) /\
    (forall perm, fs !! p <> Some (Dir perm)) /\
    exists data, Open zf = Some {| delivered := data; complete := true |}.

(** No file entry's target is another entry's target or above it. *)
Fixpoint distinct_targets (extractTo : list string) (entries : list zipFile)
    : Prop :=
  match entries with
  | [] => True
  | zf :: rest =>
      Forall (fun zf' =>
                (IsDir zf = false ->
                 ~ target extractTo zf `prefix_of` target extractTo zf') /\
                (IsDir zf' = false ->
                 ~ target extractTo zf' `prefix_of` target extractTo zf)) rest /\
      distinct_targets extractTo rest
  end.

(** What the extractor leaves for an entry: for a directory entry, its
    directory and every directory on the way to it; for a file entry,
    the file holding the bytes of the entry, and every directory on
    the way to it. *)
Definition extracted (extractTo : list string) (fs : gmap (list string) node)
    (zf : zipFile) : Prop :=
  let p := target extractTo zf in
  if IsDir zf then forall q, q `prefix_of` p -> is_dir fs q
  else exists data,
      Open zf = Some {| delivered := data; complete := true |} /\
      fs !! p = Some (File data) /\
      forall q, q `prefix_of` Dir_ p -> is_dir fs q.

End WithOS.

(** The entry [zf] with the end of its stream set to [b]. *)
Definition with_complete (b : bool) (zf : zipFile) : zipFile :=
  {| Name := Name zf; IsDir := IsDir zf; Mode := Mode zf;
     Open := match Open zf with
             | Some s => Some {| delivered := delivered s; complete := b |}
             | None => None
             end |}.

(** *** A concrete setting for examples *)

Definition slash (a : ascii) : bool := Ascii.eqb a "/".

Definition nothing_denied (p : list string) : bool := false.

(** The archive [pkg.zip] holding [a/b.txt] with the content [hello]. *)
Definition hello_zip (path : string) : option (list zipFile) :=
  if String.eqb path "pkg.zip"
  then Some [{| Name := "a/b.txt"; IsDir := false; Mode := 420;
                Open := Some {| delivered := "hello"; complete := true |} |}]
  else None.

(** The same archive when the stream of [a/b.txt] breaks after two
    bytes (a checksum error, a truncated file). *)
Definition broken_zip (path : string) : option (list zipFile) :=
  if String.eqb path "pkg.zip"
  then Some [{| Name := "a/b.txt"; IsDir := false; Mode := 420;
                Open := Some {| delivered := "he"; complete := false |} |}]
  else None.

(** An archive of three files whose second entry cannot be opened. *)
Definition unreadable_zip (path : string) : option (list zipFile) :=
  if String.eqb path "pkg.zip"
  then Some [{| Name := "a.txt"; IsDir := false; Mode := 420;
                Open := Some {| delivered := "x"; complete := true |} |};
             {| Name := "b.txt"; IsDir := false; Mode := 420; Open := None |};
             {| Name := "c.txt"; IsDir := false; Mode := 420;
                Open := Some {| delivered := "z"; complete := true |} |}]
  else None.

(** A disk where the regular file [/tmp/out/a] stands in the way of
    the directory of that name. *)
Definition blocked_disk : gmap (list string) node :=
  <[["tmp"; "out"; "a"] := File "in the way"]>
    (<[["tmp"; "out"] := Dir 493]> (<[["tmp"] := Dir 493]> ∅)).

(** An archive whose only entry is named [../evil.txt]. *)
Definition slip_zip (path : string) : option (list zipFile) :=
  if String.eqb path "pkg.zip"
  then Some [{| Name := "../evil.txt"; IsDir := false; Mode := 420;
                Open := Some {| delivered := "x"; complete := true |} |}]
  else None.

End Zip.

(** ** Theorems *)

Module GoStringsFacts.
Import GoStrings.

Lemma append_cons a s t : String a s +:+ t = String a (s +:+ t).
Proof. reflexivity. Qed.

Lemma append_nil_l s : "" +:+ s = s.
Proof. reflexivity. Qed.

Lemma append_assoc s t u : (s +:+ t) +:+ u = s +:+ t +:+ u.
Proof.
  induction s as [|a s IH]; [reflexivity|].
  now rewrite !append_cons, IH.
Qed.

Lemma length_append s t :
  String.length (s +:+ t) = (String.length s + String.length t)%nat.
Proof.
  induction s as [|a s IH]; [reflexivity|].
  rewrite append_cons. simpl. now rewrite IH.
Qed.

Lemma append_nil_r s : s +:+ "" = s.
Proof.
  induction s as [|a s IH]; [reflexivity|]. now rewrite append_cons, IH.
Qed.

Lemma HasPrefix_spec s p :
  HasPrefix s p = true <-> exists post, s = p +:+ post.
Proof.
  revert s. induction p as [|b p IH]; intros s; simpl.
  - split; [eauto | reflexivity].
  - destruct s as [|a s].
    + split; [discriminate | intros [post H]; discriminate].
    + destruct (Ascii.eqb_spec a b) as [->|Hne].
      * rewrite IH. split; intros [post H]; exists post.
        -- now rewrite append_cons, H.
        -- rewrite append_cons in H. now injection H.
      * split; [discriminate|]. intros [post H].
        rewrite append_cons in H. injection H as H _. contradiction.
Qed.

(** [Contains] is the substring test. *)
Lemma Contains_spec s substr :
  Contains s substr = true <-> exists pre post, s = pre +:+ substr +:+ post.
Proof.
  induction s as [|a s IH].
  - simpl. rewrite orb_false_r, HasPrefix_spec. split.
    + intros [post H]. exists "", post. exact H.
    + intros (pre & post & H). exists post.
      destruct pre as [|? ?]; [exact H | discriminate].
  - cbn [Contains]. rewrite orb_true_iff, HasPrefix_spec, IH. split.
    + intros [[post H]|(pre & post & H)].
      * exists "", post. exact H.
      * exists (String a pre), post. now rewrite append_cons, H.
    + intros (pre & post & H). destruct pre as [|b pre].
      * left. exists post. exact H.
      * right. rewrite append_cons in H. injection H as _ H.
        exists pre, post. exact H.
Qed.

Lemma drop_append s t : drop (String.length s) (s +:+ t) = t.
Proof. induction s as [|a s IH]; [reflexivity|]. rewrite append_cons. exact IH. Qed.

Lemma HasPrefix_drop s delim :
  HasPrefix s delim = true -> s = delim +:+ drop (String.length delim) s.
Proof.
  intros H. apply HasPrefix_spec in H as [post ->]. now rewrite drop_append.
Qed.

Lemma cut_unfold s delim :
  cut s delim =
  if HasPrefix s delim then Some ("", drop (String.length delim) s)
  else match s with
       | EmptyString => None
       | String a s' =>
           match cut s' delim with
           | Some (before, after) => Some (String a before, after)
           | None => None
           end
       end.
Proof. destruct s; reflexivity. Qed.

(** [cut] finds nothing exactly when the delimiter does not occur. *)
Lemma cut_None s delim : cut s delim = None <-> Contains s delim = false.
Proof.
  induction s as [|a s IH]; rewrite cut_unfold; cbn [Contains].
  - destruct (HasPrefix "" delim); simpl; split; congruence.
  - destruct (HasPrefix (String a s) delim); simpl; [split; congruence|].
    rewrite <- IH. destruct (cut s delim) as [[b c]|]; split; congruence.
Qed.

(** What [cut] returns are the texts around the delimiter. *)
Lemma cut_Some s delim before after :
  cut s delim = Some (before, after) -> s = before +:+ delim +:+ after.
Proof.
  revert before. induction s as [|a s IH]; intros before; rewrite cut_unfold.
  - destruct (HasPrefix "" delim) eqn:Hp; [|discriminate].
    intros [= <- <-]. rewrite append_nil_l. now apply HasPrefix_drop.
  - destruct (HasPrefix (String a s) delim) eqn:Hp.
    + intros [= <- <-]. rewrite append_nil_l. now apply HasPrefix_drop.
    + destruct (cut s delim) as [[b c]|]; [|discriminate].
      intros [= <- <-]. rewrite append_cons. f_equal. now apply IH.
Qed.

End GoStringsFacts.

Module RunnerFacts.
Import Runner.

Section WithOS.
Variable os : Cmd -> behaviour.

(** Empty argument vectors run nothing and succeed. *)
Lemma system_empty : system os [] = ([], None).
Proof. reflexivity. Qed.

(** The error returned for a non-empty vector, by cases on what the
    child does. *)
Lemma system_result name rest :
  snd (system os (name :: rest)) =
  match os (Command name rest) with
  | CannotStart msg => Some (StartError msg)
  | Exited code =>
      if (code =? 0) || (code =? 3010) then None
      else Some (ExitError (Some code))
  | ExitedOpaque => Some (ExitError None)
  | WaitFailed msg => Some (OtherError msg)
  end.
Proof.
  unfold system.
  destruct (os (Command name rest)) as [msg|code| |msg]; simpl; try reflexivity.
  destruct (code =? 0) eqn:E0; simpl; [reflexivity|].
  destruct (code =? 3010); reflexivity.
Qed.

End WithOS.

(** C1: for a non-empty argument vector, exit code 0 gives nil, exit code
    3010 gives nil (logged as reboot required), any other exit code gives
    the exit error carrying that code, and a child that cannot be started
    gives the start error; nil is returned in no other case. *)
Theorem system_exit_classification (os : Cmd -> behaviour) (args : list string)
    (Hargs : args <> []) :
  let cmd := Command (hd "" args) (tl args) in
  (os cmd = Exited 0 -> snd (system os args) = None) /\
  (os cmd = Exited 3010 ->
     system os args =
       (["Running " +:+ GoStrings.Join args " ";
         "Exit code 3010, needs reboot to complete install."], None)) /\
  (forall code, os cmd = Exited code -> code <> 0 -> code <> 3010 ->
     snd (system os args) = Some (ExitError (Some code))) /\
  (forall msg, os cmd = CannotStart msg ->
     snd (system os args) = Some (StartError msg)) /\
  (snd (system os args) = None <-> os cmd = Exited 0 \/ os cmd = Exited 3010).
Proof.
  destruct args as [|name rest]; [congruence|]. simpl hd; simpl tl.
  intros cmd. subst cmd.
  repeat split.
  - intros H. rewrite system_result, H. reflexivity.
  - intros H. unfold system. rewrite H. reflexivity.
  - intros code H H0 H1. rewrite system_result, H.
    destruct (Z.eqb_spec code 0); [lia|].
    destruct (Z.eqb_spec code 3010); [lia|]. reflexivity.
  - intros msg H. rewrite system_result, H. reflexivity.
  - rewrite system_result.
    destruct (os (Command name rest)) as [msg|code| |msg]; try discriminate.
    destruct (Z.eqb_spec code 0) as [->|]; [auto|].
    destruct (Z.eqb_spec code 3010) as [->|]; [auto|]. discriminate.
  - rewrite system_result. intros [-> | ->]; reflexivity.
Qed.

Lemma system_exit_classification_witness :
  system msiexec_os ["msiexec"; "/i"; "x.msi"] =
    (["Running msiexec /i x.msi";
      "Exit code 3010, needs reboot to complete install."], None) /\
  snd (system msiexec_os ["setup.exe"; "/S"]) = Some (ExitError (Some 1)).
Proof.
  split.
  - apply (system_exit_classification msiexec_os ["msiexec"; "/i"; "x.msi"]);
      [discriminate | reflexivity].
  - apply (system_exit_classification msiexec_os ["setup.exe"; "/S"]);
      [discriminate | reflexivity | lia | lia].
Defined.

End RunnerFacts.

Module ExpandFacts.
Import GoStrings GoStringsFacts Expand.

Example environMap_x86 :
  environMap ["ProgramFiles(x86)=C:\PF86"; "Path=C:\bin"; "=C:=C:\tmp"] =
  Some (<["" := "C:=C:\tmp"]> (<["PATH" := "C:\bin"]>
         (<["PROGRAMFILES_X86" := "C:\PF86"]> ∅))).
Proof. reflexivity. Qed.

Example expandString_spec_example :
  expandString [] "http://x/{{.FOO}}" {["FOO" := "bar"]} = Returned "http://x/bar".
Proof. reflexivity. Qed.

Lemma cut_eq s delim :
  cut s delim =
  if HasPrefix s delim then Some ("", drop (String.length delim) s)
  else match s with
       | EmptyString => None
       | String a s' =>
           match cut s' delim with
           | Some (before, after) => Some (String a before, after)
           | None => None
           end
       end.
Proof. destruct s; reflexivity. Qed.


Lemma cut_none_free c s :
  all_bytes (not_byte c) s = true ->
  cut s (String c (String c "")) = None.
Proof.
  induction s as [|a s IH]; intros Hfree; rewrite cut_eq; cbn [HasPrefix].
  - reflexivity.
  - simpl in Hfree. apply andb_true_iff in Hfree as [Ha Hs].
    unfold not_byte in Ha. apply negb_true_iff in Ha. rewrite Ha.
    now rewrite (IH Hs).
Qed.








Lemma all_bytes_append p s t :
  all_bytes p (s +:+ t) = all_bytes p s && all_bytes p t.
Proof.
  induction s as [|a s IH]; [reflexivity|].
  rewrite append_cons. simpl. now rewrite IH, andb_assoc.
Qed.
















End ExpandFacts.

Module FetchFacts.
Import GoStrings GoStringsFacts Fetch.

Section WithLibraries.
Variable url_Parse : string -> option string.
Variable NewClient : Client.

Local Abbreviation dispatch := (CustomGet_dispatch url_Parse NewClient).

Lemma dispatch_eq urlStr timeout :
  dispatch urlStr timeout =
  match url_Parse urlStr with
  | None => None
  | Some _ =>
      Some ({| Jar := [("http://download.oracle.com", oracleCookies);
                       ("https://edelivery.oracle.com", oracleCookies)];
               Timeout := match timeout with
                          | t :: _ => Some t
                          | [] => Timeout NewClient
                          end |},
            {| Method := "GET"; URL := urlStr;
               Header :=
                 (if Contains urlStr "ati.com"
                  then <["Referer" := "http://support.amd.com/"]>
                  else fun h => h)
                   ((if Contains urlStr "download-codeplex.sec.s-msft.com"
                     then <["User-Agent" := "chocolatey command line"]>
                     else fun h => h) ∅) |})
  end.
Proof.
  unfold CustomGet_dispatch, NewRequest.
  destruct (url_Parse urlStr); [|reflexivity].
  destruct (Contains urlStr "download-codeplex.sec.s-msft.com"),
    (Contains urlStr "ati.com"), timeout; reflexivity.
Qed.

(** C6: whatever the URL and the timeout, the request handed to
    [client.Do] carries the User-Agent ["chocolatey command line"]
    exactly when the URL contains the codeplex redirector domain and
    the Referer ["http://support.amd.com/"] exactly when it contains
    ["ati.com"], and the client's jar holds the oraclelicense cookie on
    the two Oracle base URLs; nothing is dispatched only when the URL
    does not parse. *)
Theorem CustomGet_quirks (Do : Client -> Request -> option Response)
    (urlStr : string) (timeout : list Z) :
  match dispatch urlStr timeout with
  | None => url_Parse urlStr = None /\
            CustomGet url_Parse NewClient Do urlStr timeout = None
  | Some (client, request) =>
      CustomGet url_Parse NewClient Do urlStr timeout = Do client request /\
      Method request = "GET" /\ URL request = urlStr /\
      ((exists pre post,
          urlStr = pre +:+ "download-codeplex.sec.s-msft.com" +:+ post) ->
       Header request !! "User-Agent" = Some "chocolatey command line") /\
      (~ (exists pre post,
          urlStr = pre +:+ "download-codeplex.sec.s-msft.com" +:+ post) ->
       Header request !! "User-Agent" = None) /\
      ((exists pre post, urlStr = pre +:+ "ati.com" +:+ post) ->
       Header request !! "Referer" = Some "http://support.amd.com/") /\
      (~ (exists pre post, urlStr = pre +:+ "ati.com" +:+ post) ->
       Header request !! "Referer" = None) /\
      Jar client =
        [("http://download.oracle.com",
          [{| Name := "oraclelicense"; Value := "accept-securebackup-cookie" |}]);
         ("https://edelivery.oracle.com",
          [{| Name := "oraclelicense"; Value := "accept-securebackup-cookie" |}])]
  end.
Proof.
  unfold CustomGet. rewrite dispatch_eq.
  destruct (url_Parse urlStr) as [path|]; [|split; reflexivity].
  cbn [Method URL Header Jar].
  rewrite <- !Contains_spec.
  destruct (Contains urlStr "download-codeplex.sec.s-msft.com"),
    (Contains urlStr "ati.com");
    repeat split; try reflexivity; intros H; try congruence;
    try (exfalso; apply H; reflexivity).
Qed.

End WithLibraries.

Lemma CustomGet_quirks_witness :
  exists client request,
    CustomGet_dispatch Cache.plain_url_Path Cache.plain_client
      "http://download-codeplex.sec.s-msft.com/Download/x.msi" [30] =
      Some (client, request) /\
    Header request !! "User-Agent" = Some "chocolatey command line" /\
    Header request !! "Referer" = None /\
    Jar client =
      [("http://download.oracle.com",
        [{| Name := "oraclelicense"; Value := "accept-securebackup-cookie" |}]);
       ("https://edelivery.oracle.com",
        [{| Name := "oraclelicense"; Value := "accept-securebackup-cookie" |}])].
Proof.
  pose proof (CustomGet_quirks Cache.plain_url_Path Cache.plain_client
                (fun _ _ => None)
                "http://download-codeplex.sec.s-msft.com/Download/x.msi" [30])
    as H.
  destruct (CustomGet_dispatch Cache.plain_url_Path Cache.plain_client
              "http://download-codeplex.sec.s-msft.com/Download/x.msi" [30])
    as [[client request]|] eqn:Hd; [|discriminate Hd].
  destruct H as (_ & _ & _ & Hua & _ & _ & Hnoref & Hjar).
  exists client, request. split; [reflexivity|]. split; [|split].
  - apply Hua. exists "http://", "/Download/x.msi". reflexivity.
  - apply Hnoref. rewrite <- Contains_spec. discriminate.
  - exact Hjar.
Defined.

Example CustomGet_codeplex :
  CustomGet_dispatch Cache.plain_url_Path Cache.plain_client
    "http://download-codeplex.sec.s-msft.com/Download/x.msi" [30] =
  Some ({| Jar := [("http://download.oracle.com", oracleCookies);
                   ("https://edelivery.oracle.com", oracleCookies)];
           Timeout := Some 30 |},
        {| Method := "GET";
           URL := "http://download-codeplex.sec.s-msft.com/Download/x.msi";
           Header := {["User-Agent" := "chocolatey command line"]} |}).
Proof. reflexivity. Qed.

End FetchFacts.

Module CrcFacts.
Import Crc.

Example crc32s_check : crc32s "123456789" = "CBF43926".
Proof. vm_compute. reflexivity. Qed.

Example crc32s_empty : crc32s "" = "0".
Proof. vm_compute. reflexivity. Qed.

(** *** The checksum is a 32-bit value *)

Lemma lxor_range a b n :
  0 <= n -> 0 <= a < 2 ^ n -> 0 <= b < 2 ^ n -> 0 <= Z.lxor a b < 2 ^ n.
Proof.
  intros Hn Ha Hb. split; [apply Z.lxor_nonneg; lia|].
  destruct (Z.eq_dec (Z.lxor a b) 0) as [->|Hnz]; [lia|].
  assert (0 <= Z.lxor a b) by (apply Z.lxor_nonneg; lia).
  assert (0 < n).
  { destruct (Z.eq_dec n 0) as [->|]; [|lia].
    change (2 ^ 0) with 1 in *. assert (a = 0) by lia. assert (b = 0) by lia.
    subst. now contradiction Hnz. }
  apply Z.log2_lt_pow2; [lia|].
  pose proof (Z.log2_lxor a b (proj1 Ha) (proj1 Hb)) as Hlog.
  assert (Z.log2 a < n).
  { destruct (Z.eq_dec a 0) as [->|]; [simpl; lia|].
    apply Z.log2_lt_pow2; lia. }
  assert (Z.log2 b < n).
  { destruct (Z.eq_dec b 0) as [->|]; [simpl; lia|].
    apply Z.log2_lt_pow2; lia. }
  lia.
Qed.

Lemma shiftr_range a k n :
  0 <= k -> 0 <= a < 2 ^ n -> 0 <= Z.shiftr a k < 2 ^ n.
Proof.
  intros Hk Ha. rewrite Z.shiftr_div_pow2 by assumption.
  assert (0 < 2 ^ k) by (apply Z.pow_pos_nonneg; lia).
  split; [apply Z.div_pos; lia|].
  apply Z.le_lt_trans with a; [|lia].
  apply Z.div_le_upper_bound; [lia|]. nia.
Qed.

Lemma shift_step_range crc : 0 <= crc < 2 ^ 32 -> 0 <= shift_step crc < 2 ^ 32.
Proof.
  intros H. unfold shift_step. destruct (Z.testbit crc 0).
  - apply lxor_range; [lia | apply shiftr_range; lia | unfold IEEE; lia].
  - apply shiftr_range; lia.
Qed.

Lemma table_range i : 0 <= i < 2 ^ 32 -> 0 <= table i < 2 ^ 32.
Proof.
  intros H. unfold table. simpl.
  do 8 apply shift_step_range. exact H.
Qed.

Lemma byte_of_range a : 0 <= byte_of a < 2 ^ 8.
Proof.
  unfold byte_of. pose proof (N_ascii_bounded a). change (2 ^ 8) with 256. lia.
Qed.

Lemma update_loop_range p : forall crc,
  0 <= crc < 2 ^ 32 -> 0 <= update_loop crc p < 2 ^ 32.
Proof.
  induction p as [|v p IH]; intros crc H; simpl; [exact H|].
  apply IH. apply lxor_range; [lia| |apply shiftr_range; lia].
  apply table_range.
  assert (0 <= Z.lxor (Z.land crc 255) (byte_of v) < 2 ^ 8).
  { apply lxor_range; [lia| |apply byte_of_range].
    change 255 with (Z.ones 8). rewrite Z.land_ones by lia.
    apply Z.mod_pos_bound. lia. }
  change (2 ^ 8) with 256 in *. change (2 ^ 32) with 4294967296. lia.
Qed.

Lemma ChecksumIEEE_range s : 0 <= ChecksumIEEE s < 2 ^ 32.
Proof.
  unfold ChecksumIEEE, Update.
  apply lxor_range; [lia| |lia].
  apply update_loop_range. change (Z.lxor 0 4294967295) with 4294967295. lia.
Qed.

(** *** [%X] writes the value in upper-case hexadecimal *)

Lemma digit_value_hex_digit d :
  0 <= d < 16 -> digit_value (hex_digit d) = d /\ is_upper_hex (hex_digit d) = true.
Proof.
  intros H.
  assert (Hd : d = 0 \/ d = 1 \/ d = 2 \/ d = 3 \/ d = 4 \/ d = 5 \/ d = 6 \/
               d = 7 \/ d = 8 \/ d = 9 \/ d = 10 \/ d = 11 \/ d = 12 \/
               d = 13 \/ d = 14 \/ d = 15) by lia.
  repeat (destruct Hd as [->|Hd]; [split; reflexivity|]).
  subst d. split; reflexivity.
Qed.

Lemma hex_go_value fuel : forall n acc,
  0 <= n < 16 ^ Z.of_nat fuel ->
  hex_value_go 0 (hex_go fuel n acc) = hex_value_go n acc.
Proof.
  induction fuel as [|fuel IH]; intros n acc Hn.
  - simpl in Hn. assert (n = 0) by lia. now subst n.
  - cbn [hex_go].
    assert (Hmod : 0 <= n mod 16 < 16) by (apply Z.mod_pos_bound; lia).
    destruct (digit_value_hex_digit (n mod 16) Hmod) as [Hdigit _].
    pose proof (Z.div_mod n 16 ltac:(lia)) as Hdm.
    destruct (Z.eqb_spec (n / 16) 0) as [Hz|Hnz].
    + cbn [hex_value_go]. rewrite Hdigit. f_equal. lia.
    + rewrite IH.
      * cbn [hex_value_go]. rewrite Hdigit. f_equal. lia.
      * rewrite Nat2Z.inj_succ, Z.pow_succ_r in Hn by lia.
        split; [apply Z.div_pos; lia|].
        apply Z.div_lt_upper_bound; lia.
Qed.

Lemma hex_go_upper fuel : forall n acc,
  0 <= n -> all_upper_hex acc = true -> all_upper_hex (hex_go fuel n acc) = true.
Proof.
  induction fuel as [|fuel IH]; intros n acc Hn Hacc; [exact Hacc|].
  cbn [hex_go].
  assert (Hmod : 0 <= n mod 16 < 16) by (apply Z.mod_pos_bound; lia).
  destruct (digit_value_hex_digit (n mod 16) Hmod) as [_ Hup].
  assert (Hacc' : all_upper_hex (String (hex_digit (n mod 16)) acc) = true)
    by (simpl; now rewrite Hup, Hacc).
  destruct (n / 16 =? 0); [exact Hacc'|].
  apply IH; [apply Z.div_pos; lia | exact Hacc'].
Qed.

(** The name [crc32s] gives is made of the digits [0-9A-F] and reads back
    as the checksum. *)
Lemma crc32s_upper_hex s :
  all_upper_hex (crc32s s) = true /\ hex_value (crc32s s) = ChecksumIEEE s /\
  0 <= ChecksumIEEE s < 2 ^ 32.
Proof.
  pose proof (ChecksumIEEE_range s) as Hr.
  unfold crc32s, SprintfX, hex_value. split; [|split; [|exact Hr]].
  - apply hex_go_upper; [lia | reflexivity].
  - rewrite hex_go_value; [reflexivity|].
    change (16 ^ Z.of_nat 8) with (2 ^ 32). exact Hr.
Qed.

End CrcFacts.

Module CacheFacts.
Import GoStrings GoStringsFacts Fetch Crc Cache.

Lemma tmp_neq (path : string) : path +:+ ".tmp" <> path.
Proof.
  intros H. apply (f_equal String.length) in H.
  rewrite length_append in H. simpl in H. lia.
Qed.

Lemma trace_replay evs w : trace (replay evs w) = trace w ++ evs.
Proof.
  revert w. induction evs as [|e evs IH]; intros w; simpl.
  - now rewrite app_nil_r.
  - rewrite IH. simpl. now rewrite <- app_assoc.
Qed.

Lemma files_replay evs w :
  files (replay evs w) = fold_left (fun f e => apply_event e f) evs (files w).
Proof.
  revert w. induction evs as [|e evs IH]; intros w; simpl; [reflexivity|].
  now rewrite IH.
Qed.

(** An event leaves every file it does not touch as it was. *)
Lemma apply_event_frame e (fs : gmap string string) p :
  ~ In p (touched e) -> apply_event e fs !! p = fs !! p.
Proof.
  destruct e as [path [|]| |path data|path ok|o n [|]]; simpl; intros Hp;
    try reflexivity.
  - rewrite lookup_insert_ne; [reflexivity | tauto].
  - destruct (fs !! path); [|reflexivity].
    rewrite lookup_insert_ne; [reflexivity | tauto].
  - destruct (fs !! o); [|reflexivity].
    rewrite lookup_insert_ne by tauto.
    rewrite lookup_delete_ne by tauto. reflexivity.
Qed.

Lemma replay_frame evs w p :
  Forall (fun e => ~ In p (touched e)) evs ->
  files (replay evs w) !! p = files w !! p.
Proof.
  intros H. revert w. induction H as [|e evs He _ IH]; intros w; simpl.
  - reflexivity.
  - rewrite IH. simpl. now apply apply_event_frame.
Qed.

Ltac plan_cases c rawurl :=
  unfold download_plan;
  destruct (create_ok c) eqn:Hcreate;
  [ destruct (CustomGet_dispatch _ _ rawurl []) as [[client request]|] eqn:Hdisp;
    [ destruct (net c client request) as [response|] eqn:Hnet;
      [ destruct (StatusCode response =? 200) eqn:Hstatus;
        [ destruct (copy_stops c) as [n|] eqn:Hcopy;
          [ | destruct (close_ok c) eqn:Hclose;
              [ destruct (rename_ok c) eqn:Hrename | ] ]
        | ]
      | ]
    | ]
  | ].

Section WithLibraries.
Variable url_Parse : string -> option string.
Variable NewClient : Client.

Local Abbreviation download := (download url_Parse NewClient).
Local Abbreviation maybeDownload := (maybeDownload url_Parse NewClient).
Local Abbreviation dispatch := (CustomGet_dispatch url_Parse NewClient).
Local Abbreviation plan := (download_plan url_Parse NewClient).

(** The response a download works with is the one [CustomGet] returns. *)
Lemma get_CustomGet c rawurl w :
  fst (get url_Parse NewClient c rawurl w) =
  Ok (CustomGet url_Parse NewClient (net c) rawurl []).
Proof.
  unfold get, CustomGet.
  destruct (dispatch rawurl []) as [[client request]|]; reflexivity.
Qed.

Lemma download_eq c rawurl dst w :
  download c rawurl dst w =
  (fst (plan c rawurl dst), replay (snd (plan c rawurl dst)) w).
Proof.
  unfold Cache.download, download_plan, bind, os_Create, get, io_Copy, Close,
    os_Rename, perform, ret, log_Fatalf.
  destruct (create_ok c); simpl; [|reflexivity].
  destruct (dispatch rawurl []) as [[client request]|]; simpl; [|reflexivity].
  destruct (net c client request) as [response|]; simpl; [|reflexivity].
  destruct (StatusCode response =? 200); simpl; [|reflexivity].
  destruct (copy_stops c) as [n|]; simpl; [reflexivity|].
  destruct (close_ok c); simpl; [|reflexivity].
  destruct (rename_ok c); reflexivity.
Qed.

(** The events of a download touch the temporary path only, except
    for the rename of a download that succeeds. *)
Lemma plan_touched c rawurl dst :
  Forall (fun e => forall p, In p (touched e) ->
            p = dst +:+ ".tmp" \/ (p = dst /\ fst (plan c rawurl dst) = Ok tt))
         (snd (plan c rawurl dst)).
Proof.
  plan_cases c rawurl; simpl;
    repeat (constructor; [simpl; intros p Hp; intuition auto|]);
    constructor.
Qed.

Lemma plan_fatal_frame c rawurl dst w f p :
  fst (plan c rawurl dst) = Fatal f -> p <> dst +:+ ".tmp" ->
  files (replay (snd (plan c rawurl dst)) w) !! p = files w !! p.
Proof.
  intros Hf Hp. apply replay_frame.
  eapply Forall_impl; [apply plan_touched|].
  intros e He Hin. destruct (He p Hin) as [?|[_ Hok]]; [tauto|].
  rewrite Hf in Hok. discriminate.
Qed.

(** The files after a download that succeeds. *)
Lemma plan_ok_files c rawurl dst w :
  fst (plan c rawurl dst) = Ok tt ->
  exists client request response,
    dispatch rawurl [] = Some (client, request) /\
    net c client request = Some response /\
    StatusCode response = 200 /\
    create_ok c = true /\ copy_stops c = None /\
    close_ok c = true /\ rename_ok c = true /\
    snd (plan c rawurl dst) =
      [EvCreate (dst +:+ ".tmp") true; EvDo client request;
       EvWrite (dst +:+ ".tmp") (Body response); EvClose (dst +:+ ".tmp") true;
       EvRename (dst +:+ ".tmp") dst true] /\
    files (replay (snd (plan c rawurl dst)) w) =
      <[dst := Body response]> (delete (dst +:+ ".tmp") (files w)).
Proof.
  plan_cases c rawurl; simpl; try discriminate. intros _.
  exists client, request, response.
  apply Z.eqb_eq in Hstatus. repeat split; try assumption.
  rewrite lookup_insert_eq, insert_insert_eq. simpl.
  rewrite lookup_insert_eq, delete_insert_eq. reflexivity.
Qed.

Lemma maybeDownload_eq c rawurl dst force w :
  maybeDownload c rawurl dst force w =
  if negb (bool_decide (is_Some (files w !! dst))) || force
  then download c rawurl dst w else (Ok tt, w).
Proof.
  unfold Cache.maybeDownload, bind, FileExists, ret.
  destruct (negb _ || force); reflexivity.
Qed.

(** C2: a download that stops at any [log.Fatalf] leaves the final
    path as it was (absent when it was absent) and changes no file
    other than the one with the [.tmp] suffix; the final path changes
    only in a download that succeeds, where the rename gives it the
    whole body of a 200 response. *)
Theorem download_failure_leaves_no_final_file c rawurl dst w :
  let run := download c rawurl dst w in
  let tmp := dst +:+ ".tmp" in
  (forall f, fst run = Fatal f ->
     files (snd run) !! dst = files w !! dst /\
     (files w !! dst = None -> files (snd run) !! dst = None) /\
     forall p, p <> tmp -> files (snd run) !! p = files w !! p) /\
  (files (snd run) !! dst <> files w !! dst ->
     fst run = Ok tt /\
     exists client request response,
       dispatch rawurl [] = Some (client, request) /\
       net c client request = Some response /\
       StatusCode response = 200 /\
       copy_stops c = None /\ close_ok c = true /\ rename_ok c = true /\
       last (trace (snd run)) = Some (EvRename tmp dst true) /\
       files (snd run) !! dst = Some (Body response) /\
       files (snd run) !! tmp = None).
Proof.
  intros run tmp. subst run. rewrite download_eq. cbn [fst snd].
  split.
  - intros f Hf.
    assert (Hdst : files (replay (snd (plan c rawurl dst)) w) !! dst
                   = files w !! dst).
    { apply (plan_fatal_frame _ _ _ _ f); [assumption|].
      intros H. symmetry in H. now apply tmp_neq in H. }
    repeat split.
    + exact Hdst.
    + intros Hnone. now rewrite Hdst.
    + intros p Hp. now apply (plan_fatal_frame _ _ _ _ f).
  - intros Hchg.
    destruct (fst (plan c rawurl dst)) as [[]|f] eqn:Hres.
    + split; [reflexivity|].
      destruct (plan_ok_files c rawurl dst w Hres)
        as (client & request & response & Hd & Hn & Hs & _ & Hc & Hcl & Hr & Hevs & Hfiles).
      exists client, request, response. repeat split; try assumption.
      * rewrite trace_replay, Hevs.
        change [EvCreate (dst +:+ ".tmp") true; EvDo client request;
                EvWrite (dst +:+ ".tmp") (Body response);
                EvClose (dst +:+ ".tmp") true;
                EvRename (dst +:+ ".tmp") dst true]
          with ([EvCreate (dst +:+ ".tmp") true; EvDo client request;
                 EvWrite (dst +:+ ".tmp") (Body response);
                 EvClose (dst +:+ ".tmp") true]
                ++ [EvRename (dst +:+ ".tmp") dst true]).
        rewrite app_assoc. apply last_snoc.
      * rewrite Hfiles. apply lookup_insert_eq.
      * rewrite Hfiles. rewrite lookup_insert_ne.
        -- apply lookup_delete_eq.
        -- intros H. symmetry in H. now apply tmp_neq in H.
    + exfalso. apply Hchg. apply (plan_fatal_frame _ _ _ _ f); [assumption|].
      intros H. symmetry in H. now apply tmp_neq in H.
Qed.

(** Any status other than 200 ends the download at the status check. *)
Lemma download_not_200 c rawurl dst w client request response :
  create_ok c = true ->
  dispatch rawurl [] = Some (client, request) ->
  net c client request = Some response ->
  StatusCode response <> 200 ->
  download c rawurl dst w =
    (Fatal (UnexpectedStatus (StatusCode response)),
     replay [EvCreate (dst +:+ ".tmp") true; EvDo client request] w).
Proof.
  intros Hc Hd Hn Hs. rewrite download_eq. unfold download_plan.
  rewrite Hc, Hd, Hn. apply Z.eqb_neq in Hs. now rewrite Hs.
Qed.

(** C7: when the response received has a status outside 200..299, the
    download ends in the unexpected-status fatal error carrying that
    status, the final path is as it was, so no file appears there, and
    nothing was done beyond creating the temporary file and sending
    the request. *)
Theorem download_non_2xx_fatal c rawurl dst w client request response
    (Hcreate : create_ok c = true)
    (Hdispatch : dispatch rawurl [] = Some (client, request))
    (Hnet : net c client request = Some response)
    (Hstatus : StatusCode response < 200 \/ 299 < StatusCode response) :
  let run := download c rawurl dst w in
  fst run = Fatal (UnexpectedStatus (StatusCode response)) /\
  files (snd run) !! dst = files w !! dst /\
  (files w !! dst = None -> files (snd run) !! dst = None) /\
  trace (snd run) =
    trace w ++ [EvCreate (dst +:+ ".tmp") true; EvDo client request].
Proof.
  intros run. subst run.
  rewrite (download_not_200 c rawurl dst w client request response)
    by (assumption || lia).
  cbn [fst snd].
  assert (Hdst : files (replay [EvCreate (dst +:+ ".tmp") true;
                                EvDo client request] w) !! dst
                 = files w !! dst).
  { apply replay_frame. repeat constructor; simpl; [|tauto].
    intros [H|[]]. now apply tmp_neq in H. }
  repeat split.
  - exact Hdst.
  - intros Hnone. now rewrite Hdst.
  - apply trace_replay.
Qed.

Lemma dst_not_tmp (dst : string) : dst <> dst +:+ ".tmp".
Proof. intros H. symmetry in H. now apply tmp_neq in H. Qed.

(** C10: the events of a download create and write the [.tmp] path
    only; the one event that touches the final path is the successful
    rename, which comes last, after the whole body was written and the
    file closed; so a download that ends in a fatal error, forced or
    not, leaves the content of the final path unchanged. *)
Theorem download_writes_only_tmp c rawurl dst w :
  let run := download c rawurl dst w in
  let tmp := dst +:+ ".tmp" in
  exists evs,
    snd run = replay evs w /\
    (forall path data, In (EvWrite path data) evs -> path = tmp) /\
    (forall path ok, In (EvCreate path ok) evs -> path = tmp) /\
    (forall e, In e evs -> In dst (touched e) ->
       e = EvRename tmp dst true /\
       exists client request response,
         net c client request = Some response /\
         copy_stops c = None /\ close_ok c = true /\
         evs = [EvCreate tmp true; EvDo client request;
                EvWrite tmp (Body response); EvClose tmp true;
                EvRename tmp dst true]) /\
    (forall f, fst run = Fatal f -> files (snd run) !! dst = files w !! dst) /\
    (forall f, fst (maybeDownload c rawurl dst true w) = Fatal f ->
       files (snd (maybeDownload c rawurl dst true w)) !! dst = files w !! dst).
Proof.
  intros run tmp. subst run tmp. exists (snd (plan c rawurl dst)).
  assert (Hfatal : forall f, fst (download c rawurl dst w) = Fatal f ->
            files (snd (download c rawurl dst w)) !! dst = files w !! dst).
  { intros f. rewrite download_eq. cbn [fst snd]. intros Hf.
    apply (plan_fatal_frame _ _ _ _ f _ Hf), dst_not_tmp. }
  repeat split.
  - now rewrite download_eq.
  - plan_cases c rawurl; simpl; intros path data H; intuition congruence.
  - plan_cases c rawurl; simpl; intros path ok H; intuition congruence.
  - pose proof (proj1 (List.Forall_forall _ _) (plan_touched c rawurl dst))
      as Htouch.
    destruct (Htouch e H dst H0) as [Heq|[_ Hok]];
      [now apply dst_not_tmp in Heq|].
    destruct (plan_ok_files c rawurl dst w Hok)
      as (client & request & response & _ & _ & _ & _ & _ & _ & _ & Hevs & _).
    rewrite Hevs in H. simpl in H.
    pose proof (dst_not_tmp dst) as Hne.
    destruct H as [<-|[<-|[<-|[<-|[<-|[]]]]]]; simpl in H0;
      intuition congruence.
  - pose proof (proj1 (List.Forall_forall _ _) (plan_touched c rawurl dst))
      as Htouch.
    destruct (Htouch e H dst H0) as [Heq|[_ Hok]];
      [now apply dst_not_tmp in Heq|].
    destruct (plan_ok_files c rawurl dst w Hok)
      as (client & request & response & _ & Hn & _ & _ & Hc & Hcl & _ & Hevs & _).
    exists client, request, response. auto.
  - exact Hfatal.
  - intros f. rewrite maybeDownload_eq, orb_true_r. apply Hfatal.
Qed.

Lemma maybeDownload_ok_exists c rawurl dst force w :
  fst (maybeDownload c rawurl dst force w) = Ok tt ->
  is_Some (files (snd (maybeDownload c rawurl dst force w)) !! dst).
Proof.
  rewrite maybeDownload_eq.
  destruct (negb (bool_decide (is_Some (files w !! dst))) || force) eqn:Hgo.
  - rewrite download_eq. cbn [fst snd]. intros Hok.
    destruct (plan_ok_files c rawurl dst w Hok)
      as (client & request & response & _ & _ & _ & _ & _ & _ & _ & _ & Hfiles).
    rewrite Hfiles, lookup_insert_eq. eauto.
  - intros _. cbn [snd].
    apply orb_false_iff in Hgo as [Hex _].
    apply negb_false_iff, bool_decide_eq_true in Hex. exact Hex.
Qed.

Lemma maybeDownload_hit c rawurl dst w :
  is_Some (files w !! dst) -> maybeDownload c rawurl dst false w = (Ok tt, w).
Proof.
  intros Hex. rewrite maybeDownload_eq.
  now rewrite (bool_decide_eq_true_2 _ Hex).
Qed.

End WithLibraries.

Section WithPaths.
Variable url_Parse : string -> option string.
Variable NewClient : Client.
Variable tempPath : string.
Variable filepath_Join : string -> string -> string.
Variable IsPathSeparator : ascii -> bool.

Local Abbreviation download := (download url_Parse NewClient).
Local Abbreviation maybeDownload := (maybeDownload url_Parse NewClient).
Local Abbreviation dispatch := (CustomGet_dispatch url_Parse NewClient).
Local Abbreviation plan := (download_plan url_Parse NewClient).
Local Abbreviation downloadExt :=
  (downloadExt url_Parse NewClient tempPath filepath_Join IsPathSeparator).
Local Abbreviation cachePath_spec :=
  (cachePath_spec url_Parse tempPath filepath_Join IsPathSeparator).

Lemma downloadExt_eq c rawurl ext force w :
  downloadExt c rawurl ext force w =
  match cachePath_spec rawurl ext with
  | None => (Fatal (UnableToParseURL rawurl), w)
  | Some p =>
      match maybeDownload c rawurl p force w with
      | (Ok _, w') => (Ok p, w')
      | (Fatal f, w') => (Fatal f, w')
      end
  end.
Proof.
  unfold Cache.downloadExt, Cache.cachePath_spec, downloadTemp, bind, ret,
    log_Fatalf, crc32s.
  destruct (url_Parse rawurl) as [path|]; [|reflexivity].
  destruct (String.eqb ext ""); reflexivity.
Qed.

(** After a call that returned, the same call without force is a
    cache hit. *)
Lemma downloadExt_again c c' rawurl ext force w p w' :
  downloadExt c rawurl ext force w = (Ok p, w') ->
  downloadExt c' rawurl ext false w' = (Ok p, w').
Proof.
  rewrite !downloadExt_eq.
  destruct (cachePath_spec rawurl ext) as [q|]; [|discriminate].
  pose proof (maybeDownload_ok_exists url_Parse NewClient c rawurl q force w) as Hex.
  destruct (maybeDownload c rawurl q force w) as [[[]|f] w1]; [|discriminate].
  intros [= <- <-]. cbn [fst snd] in Hex.
  now rewrite (maybeDownload_hit url_Parse NewClient c' rawurl q w1 (Hex eq_refl)).
Qed.

(** Inside [downloadExt] the URL has parsed, so the request of the
    download is built. *)
Lemma cachePath_dispatch rawurl ext p :
  cachePath_spec rawurl ext = Some p ->
  exists client request, dispatch rawurl [] = Some (client, request).
Proof.
  unfold Cache.cachePath_spec. rewrite FetchFacts.dispatch_eq.
  destruct (url_Parse rawurl); [eauto | discriminate].
Qed.

(** A request is among the events of a download exactly when the
    temporary file was created and the request could be built. *)
Lemma plan_Do c rawurl dst :
  (exists client request, In (EvDo client request) (snd (plan c rawurl dst))) <->
  create_ok c = true /\
  exists client request, dispatch rawurl [] = Some (client, request).
Proof.
  unfold download_plan. destruct (create_ok c).
  - destruct (dispatch rawurl []) as [[client request]|] eqn:Hd.
    + split; [intros _; split; [reflexivity | eauto]|].
      intros _. exists client, request.
      destruct (net c client request) as [response|]; [|simpl; auto].
      destruct (StatusCode response =? 200); [|simpl; auto].
      destruct (copy_stops c); [simpl; auto|].
      destruct (close_ok c); simpl; auto.
    + simpl. split.
      * intros (cl & rq & [H|[]]). discriminate H.
      * intros [_ (cl & rq & H)]. discriminate H.
  - simpl. split.
    + intros (cl & rq & [H|[]]). discriminate H.
    + intros [H _]. discriminate H.
Qed.

Lemma plan_head c rawurl dst :
  head (snd (plan c rawurl dst)) = Some (EvCreate (dst +:+ ".tmp") (create_ok c)).
Proof. plan_cases c rawurl; reflexivity. Qed.

(** C5 (as amended): [downloadExt] on a URL that does not parse is
    fatal at once.  Otherwise, with [p] the cache path: when force is
    false and a file exists at [p], the call returns [p] with no event
    at all, so with no network access and no change to the files; in
    every other case the call is the download to [p], which starts by
    creating the temporary file; a request is sent exactly when the
    call is not such a hit and the temporary file could be created;
    and after a call that returned, the same call without force
    returns [p] again and changes nothing. *)
Theorem downloadExt_fetches_iff c rawurl ext force w :
  let run := downloadExt c rawurl ext force w in
  match cachePath_spec rawurl ext with
  | None => run = (Fatal (UnableToParseURL rawurl), w)
  | Some p =>
      let hit := force = false /\ is_Some (files w !! p) in
      exists evs,
        snd run = replay evs w /\
        (hit -> run = (Ok p, w) /\ evs = []) /\
        (~ hit ->
           head evs = Some (EvCreate (p +:+ ".tmp") (create_ok c)) /\
           snd run = snd (download c rawurl p w) /\
           fst run = match fst (download c rawurl p w) with
                     | Ok _ => Ok p
                     | Fatal f => Fatal f
                     end) /\
        ((exists client request, In (EvDo client request) evs) <->
         ~ hit /\ create_ok c = true) /\
        (forall q, fst run = Ok q ->
           q = p /\ is_Some (files (snd run) !! p) /\
           forall c', downloadExt c' rawurl ext false (snd run) = (Ok p, snd run))
  end.
Proof.
  intros run. subst run.
  destruct (cachePath_spec rawurl ext) as [p|] eqn:Hp;
    [|now rewrite downloadExt_eq, Hp].
  intros hit.
  assert (Hreturned : forall q,
            fst (downloadExt c rawurl ext force w) = Ok q ->
            q = p /\
            is_Some (files (snd (downloadExt c rawurl ext force w)) !! p) /\
            forall c', downloadExt c' rawurl ext false
                         (snd (downloadExt c rawurl ext force w)) =
                       (Ok p, snd (downloadExt c rawurl ext force w))).
  { intros q. rewrite !downloadExt_eq, Hp.
    pose proof (maybeDownload_ok_exists url_Parse NewClient c rawurl p force w)
      as Hex.
    destruct (maybeDownload c rawurl p force w) as [[[]|f] w1]; [|discriminate].
    cbn [fst snd] in *. intros [= <-]. specialize (Hex eq_refl).
    split_and!; [reflexivity | exact Hex|].
    intros c'. rewrite downloadExt_eq, Hp.
    now rewrite (maybeDownload_hit url_Parse NewClient c' rawurl p w1 Hex). }
  rewrite downloadExt_eq, Hp in *. rewrite maybeDownload_eq in *.
  destruct (negb (bool_decide (is_Some (files w !! p))) || force) eqn:Hgo.
  - assert (Hmiss : ~ hit).
    { intros [-> Hex]. rewrite orb_false_r in Hgo.
      apply negb_true_iff, bool_decide_eq_false in Hgo. tauto. }
    exists (snd (plan c rawurl p)).
    rewrite download_eq in *. cbn [fst snd] in *.
    split_and!.
    + now destruct (fst (plan c rawurl p)).
    + tauto.
    + intros _. split_and!.
      * apply plan_head.
      * now destruct (fst (plan c rawurl p)).
      * now destruct (fst (plan c rawurl p)).
    + rewrite plan_Do. split.
      * tauto.
      * intros [_ Hc]. split; [exact Hc|]. eapply cachePath_dispatch, Hp.
    + exact Hreturned.
  - assert (Hhit : hit).
    { apply orb_false_iff in Hgo as [Hex ->].
      apply negb_false_iff, bool_decide_eq_true in Hex. now split. }
    exists []. cbn [fst snd] in *. split_and!.
    + reflexivity.
    + auto.
    + tauto.
    + split; [intros (cl & rq & []) | tauto].
    + exact Hreturned.
Qed.

(** C4: the path [downloadExt] returns is the same for every state of
    the files, every behaviour of the network and either value of the
    force flag; it is the temporary root joined with the upper-case
    hexadecimal CRC32 of the URL followed by the explicit extension,
    or by the extension of the URL's path when none is given; the
    hexadecimal name is made of the digits [0-9A-F] and reads back as the
    32-bit checksum; and the call does return the path on a cache hit. *)
Theorem downloadExt_path_deterministic rawurl ext :
  (forall c1 c2 f1 f2 w1 w2 p1 p2 w1' w2',
     downloadExt c1 rawurl ext f1 w1 = (Ok p1, w1') ->
     downloadExt c2 rawurl ext f2 w2 = (Ok p2, w2') -> p1 = p2) /\
  (forall c f w p w',
     downloadExt c rawurl ext f w = (Ok p, w') ->
     exists path,
       url_Parse rawurl = Some path /\
       p = filepath_Join tempPath
             (SprintfX (ChecksumIEEE rawurl)
              +:+ (if String.eqb ext "" then Ext IsPathSeparator path else ext)) /\
       cachePath_spec rawurl ext = Some p) /\
  (forall c w p,
     cachePath_spec rawurl ext = Some p -> is_Some (files w !! p) ->
     downloadExt c rawurl ext false w = (Ok p, w)) /\
  (all_upper_hex (SprintfX (ChecksumIEEE rawurl)) = true /\
   hex_value (SprintfX (ChecksumIEEE rawurl)) = ChecksumIEEE rawurl /\
   0 <= ChecksumIEEE rawurl < 2 ^ 32).
Proof.
  assert (Hspec : forall c f w p w',
            downloadExt c rawurl ext f w = (Ok p, w') ->
            cachePath_spec rawurl ext = Some p).
  { intros c f w p w'. rewrite downloadExt_eq.
    destruct (cachePath_spec rawurl ext) as [q|]; [|discriminate].
    destruct (maybeDownload c rawurl q f w) as [[[]|?] ?]; congruence. }
  repeat split.
  - intros c1 c2 f1 f2 w1 w2 p1 p2 w1' w2' H1 H2.
    apply Hspec in H1, H2. congruence.
  - intros c f w p w' H. apply Hspec in H.
    unfold Cache.cachePath_spec in H.
    destruct (url_Parse rawurl) as [path|] eqn:Hp; [|discriminate].
    exists path. split; [reflexivity|].
    injection H as <-. split; [reflexivity|].
    unfold Cache.cachePath_spec. now rewrite Hp.
  - intros c w p Hp Hex. rewrite downloadExt_eq, Hp.
    now rewrite (maybeDownload_hit url_Parse NewClient c rawurl p w Hex).
  - apply (CrcFacts.crc32s_upper_hex rawurl).
  - apply (CrcFacts.crc32s_upper_hex rawurl).
  - apply (CrcFacts.crc32s_upper_hex rawurl).
  - apply (CrcFacts.crc32s_upper_hex rawurl).
Qed.

End WithPaths.

Lemma download_non_2xx_fatal_witness :
  let response := {| StatusCode := 404; ContentLength := None; Body := "not found" |} in
  let run := download plain_url_Path plain_client (answering response)
               "http://example.com/a/setup.exe" "C:\Temp\BEFD800C.exe" empty_world in
  fst run = Fatal (UnexpectedStatus 404) /\
  files (snd run) !! "C:\Temp\BEFD800C.exe" = None.
Proof.
  intros response run.
  destruct (download_non_2xx_fatal plain_url_Path plain_client
              (answering response) "http://example.com/a/setup.exe"
              "C:\Temp\BEFD800C.exe" empty_world
              {| Jar := [("http://download.oracle.com", oracleCookies);
                         ("https://edelivery.oracle.com", oracleCookies)];
                 Timeout := None |}
              {| Method := "GET"; URL := "http://example.com/a/setup.exe";
                 Header := ∅ |}
              response eq_refl eq_refl eq_refl (or_intror eq_refl))
    as (Hfatal & _ & Hnone & _).
  split; [exact Hfatal | exact (Hnone eq_refl)].
Defined.

Example downloadExt_fetches :
  let run := downloadExt plain_url_Path plain_client "C:\Temp" windows_Join
               windows_IsPathSeparator (answering setup_exe)
               "http://example.com/a/setup.exe" "" false empty_world in
  fst run = Ok "C:\Temp\BEFD800C.exe" /\
  files (snd run) = {["C:\Temp\BEFD800C.exe" := "MZ..."]}.
Proof. vm_compute. split; reflexivity. Qed.

Example downloadExt_explicit_extension :
  fst (downloadExt plain_url_Path plain_client "C:\Temp" windows_Join
         windows_IsPathSeparator (answering setup_exe)
         "http://example.com/latest" ".msi" true empty_world) =
  Ok "C:\Temp\A81ACA12.msi".
Proof. vm_compute. reflexivity. Qed.

Example Ext_examples :
  Ext windows_IsPathSeparator "/a/setup.exe" = ".exe" /\
  Ext windows_IsPathSeparator "/a/x.tar.gz" = ".gz" /\
  Ext windows_IsPathSeparator "/a.b/setup" = "" /\
  Ext windows_IsPathSeparator "" = "".
Proof. repeat split; reflexivity. Qed.

Lemma download_failure_leaves_no_final_file_witness :
  let run := download plain_url_Path plain_client (interrupted setup_exe 3)
               "http://example.com/a/setup.exe" "C:\Temp\BEFD800C.exe"
               empty_world in
  fst run = Fatal ErrorDownloading /\
  files (snd run) !! "C:\Temp\BEFD800C.exe" = None /\
  files (snd run) !! "C:\Temp\BEFD800C.exe.tmp" = Some "MZ.".
Proof.
  intros run.
  destruct (download_failure_leaves_no_final_file plain_url_Path plain_client
              (interrupted setup_exe 3) "http://example.com/a/setup.exe"
              "C:\Temp\BEFD800C.exe" empty_world) as [Hfatal _].
  destruct (Hfatal ErrorDownloading eq_refl) as (_ & Hnone & _).
  split; [reflexivity|]. split; [exact (Hnone eq_refl) | reflexivity].
Defined.

Lemma download_writes_only_tmp_witness :
  let w := cached_world "C:\Temp\BEFD800C.exe" "old installer" in
  let run := maybeDownload plain_url_Path plain_client (interrupted setup_exe 3)
               "http://example.com/a/setup.exe" "C:\Temp\BEFD800C.exe" true w in
  fst run = Fatal ErrorDownloading /\
  files (snd run) !! "C:\Temp\BEFD800C.exe" = Some "old installer".
Proof.
  intros w run.
  destruct (download_writes_only_tmp plain_url_Path plain_client
              (interrupted setup_exe 3) "http://example.com/a/setup.exe"
              "C:\Temp\BEFD800C.exe" w) as (evs & _ & _ & _ & _ & _ & Hforced).
  split; [reflexivity|].
  exact (Hforced ErrorDownloading eq_refl).
Defined.

Lemma downloadExt_fetches_iff_witness :
  let w := cached_world "C:\Temp\BEFD800C.exe" "old installer" in
  downloadExt plain_url_Path plain_client "C:\Temp" windows_Join
    windows_IsPathSeparator (answering setup_exe)
    "http://example.com/a/setup.exe" "" false w = (Ok "C:\Temp\BEFD800C.exe", w).
Proof.
  intros w.
  pose proof (downloadExt_fetches_iff plain_url_Path plain_client "C:\Temp"
                windows_Join windows_IsPathSeparator (answering setup_exe)
                "http://example.com/a/setup.exe" "" false w) as H.
  cbv zeta in H.
  change (cachePath_spec plain_url_Path "C:\Temp" windows_Join
            windows_IsPathSeparator "http://example.com/a/setup.exe" "")
    with (Some "C:\Temp\BEFD800C.exe") in H.
  cbv iota beta in H.
  destruct H as (evs & _ & Hhit & _).
  apply Hhit. split; [reflexivity|]. exists "old installer". reflexivity.
Defined.

(** C5 as stated fails: the call is forced and the cache entry exists,
    but the temporary file cannot be created; the call ends in a fatal
    error and no request has been sent. *)
Lemma forced_download_without_request :
  let w := cached_world "C:\Temp\BEFD800C.exe" "old installer" in
  let run := downloadExt plain_url_Path plain_client "C:\Temp" windows_Join
               windows_IsPathSeparator (unwritable setup_exe)
               "http://example.com/a/setup.exe" "" true w in
  fst run = Fatal (UnableToOpenDestination "C:\Temp\BEFD800C.exe.tmp") /\
  trace (snd run) = [EvCreate "C:\Temp\BEFD800C.exe.tmp" false] /\
  (forall client request, ~ In (EvDo client request) (trace (snd run))) /\
  files (snd run) = files w.
Proof.
  intros w run. vm_compute. split_and!; try reflexivity.
  intros client request [H|[]]. discriminate H.
Qed.

Lemma downloadExt_path_deterministic_witness :
  let w := cached_world "C:\Temp\BEFD800C.exe" "old installer" in
  downloadExt plain_url_Path plain_client "C:\Temp" windows_Join
    windows_IsPathSeparator (interrupted setup_exe 3)
    "http://example.com/a/setup.exe" "" false w =
  (Ok "C:\Temp\BEFD800C.exe", w).
Proof.
  intros w.
  destruct (downloadExt_path_deterministic plain_url_Path plain_client "C:\Temp"
              windows_Join windows_IsPathSeparator
              "http://example.com/a/setup.exe" "") as (_ & _ & Hhit & _).
  apply Hhit; [reflexivity|]. exists "old installer". reflexivity.
Defined.

End CacheFacts.

Module ZipFacts.
Import GoStrings Zip.

Example extractZip_hello :
  extractZip slash nothing_denied nothing_denied hello_zip "pkg.zip" "/tmp/out" ∅ =
  (None,
   <[["tmp"; "out"; "a"; "b.txt"] := File "hello"]>
     (<[["tmp"; "out"; "a"] := Dir perm_0777]>
        (<[["tmp"; "out"] := Dir perm_0700]> (<[["tmp"] := Dir perm_0700]> ∅)))).
Proof. vm_compute. reflexivity. Qed.

(** *** Paths *)

Lemma prefix_removelast (q p : list string) :
  q `prefix_of` p -> q <> p -> q `prefix_of` removelast p.
Proof.
  intros [k ->] Hne. destruct k as [|x k] using rev_ind.
  - rewrite app_nil_r in Hne. congruence.
  - rewrite app_assoc, removelast_last. now apply prefix_app_r.
Qed.

Lemma removelast_prefix (p : list string) : removelast p `prefix_of` p.
Proof.
  destruct p as [|x p] using rev_ind.
  - apply prefix_nil.
  - rewrite removelast_last. now apply prefix_app_r.
Qed.

Lemma removelast_neq (p : list string) : p <> [] -> removelast p <> p.
Proof.
  destruct p as [|x p _] using rev_ind; [congruence|].
  intros _. rewrite removelast_last. intros H.
  apply (f_equal length) in H. rewrite length_app in H. simpl in H. lia.
Qed.

Lemma prefix_snoc_step (done q todo : list string) c :
  done `prefix_of` q -> q <> done -> q `prefix_of` done ++ c :: todo ->
  (done ++ [c]) `prefix_of` q.
Proof.
  intros [k ->] Hne Hq. apply prefix_app_inv in Hq.
  destruct k as [|x k]; [rewrite app_nil_r in Hne; congruence|].
  apply prefix_cons_inv_1 in Hq as ->.
  exists k. now rewrite <- app_assoc.
Qed.

Lemma clean_step_prefix stack component :
  component <> ".." -> stack `prefix_of` clean_step stack component.
Proof.
  intros Hne. unfold clean_step.
  destruct (_ || _); [reflexivity|].
  destruct (String.eqb_spec component ".."); [contradiction|].
  now apply prefix_app_r.
Qed.

Lemma fold_clean_prefix comps : forall stack,
  ~ In ".." comps -> stack `prefix_of` fold_left clean_step comps stack.
Proof.
  induction comps as [|c comps IH]; intros stack Hno; simpl; [reflexivity|].
  etrans; [apply (clean_step_prefix stack c) | apply IH]; simpl in Hno; tauto.
Qed.

Lemma is_dir_mono (fs fs' : gmap (list string) node) q :
  (forall p perm, fs !! p = Some (Dir perm) -> fs' !! p = Some (Dir perm)) ->
  is_dir fs q -> is_dir fs' q.
Proof. intros H [->|[perm Hd]]; [now left | right; eauto]. Qed.

(** *** [MkdirAll] *)

Section MkdirAll.
Variable mkdir_denied : list string -> bool.
Context (perm : Z).

Local Abbreviation MkdirAll_go := (MkdirAll_go mkdir_denied).
Local Abbreviation MkdirAll := (MkdirAll mkdir_denied).
Local Abbreviation way_free := (way_free mkdir_denied).

(** [MkdirAll] changes [fs] only by making directories where nothing
    was, on the way to the path asked for. *)
Lemma MkdirAll_go_lookup todo : forall fs done p,
  fst (MkdirAll_go fs done todo perm) !! p = fs !! p \/
  (fs !! p = None /\
   fst (MkdirAll_go fs done todo perm) !! p = Some (Dir perm) /\
   p `prefix_of` done ++ todo).
Proof.
  induction todo as [|c todo IH]; intros fs done p; simpl; [now left|].
  destruct (fs !! (done ++ [c])) as [[content|perm']|] eqn:Hq.
  - now left.
  - destruct (IH fs (done ++ [c]) p) as [H|(H1 & H2 & H3)]; [now left|].
    right. rewrite <- app_assoc in H3. auto.
  - destruct (mkdir_denied (done ++ [c])); [now left|].
    destruct (IH (<[done ++ [c] := Dir perm]> fs) (done ++ [c]) p)
      as [H|(H1 & H2 & H3)].
    + rewrite H. destruct (decide (done ++ [c] = p)) as [<-|Hne].
      * right. rewrite lookup_insert_eq. repeat split; auto.
        exists todo. now rewrite <- app_assoc.
      * left. now rewrite lookup_insert_ne.
    + right. rewrite <- app_assoc in H3.
      destruct (decide (done ++ [c] = p)) as [<-|Hne].
      * rewrite lookup_insert_eq in H1. discriminate.
      * rewrite lookup_insert_ne in H1 by assumption. auto.
Qed.

(** With no regular file on the way, every directory of the way is
    there afterwards. *)
Lemma MkdirAll_go_dirs todo : forall fs done,
  way_free fs (done ++ todo) ->
  forall q, done `prefix_of` q -> q <> done -> q `prefix_of` done ++ todo ->
  exists perm', fst (MkdirAll_go fs done todo perm) !! q = Some (Dir perm').
Proof.
  induction todo as [|c todo IH]; intros fs done Hfree q Hdq Hne Hq.
  - rewrite app_nil_r in Hq. exfalso. apply Hne.
    now apply (anti_symm prefix).
  - pose proof (prefix_snoc_step _ _ _ _ Hdq Hne Hq) as Hstep.
    assert (Hway : (done ++ [c]) `prefix_of` done ++ c :: todo).
    { exists todo. now rewrite <- app_assoc. }
    simpl.
    destruct (fs !! (done ++ [c])) as [[content|perm']|] eqn:Hc.
    + exfalso. apply (proj1 (Hfree _ Hway)). now exists content.
    + destruct (decide (q = done ++ [c])) as [->|Hq'].
      * destruct (MkdirAll_go_lookup todo fs (done ++ [c]) (done ++ [c]))
          as [H|(H & _)]; [|congruence].
        rewrite H, Hc. eauto.
      * apply IH; try assumption.
        -- intros q'. rewrite <- app_assoc. apply Hfree.
        -- now rewrite <- app_assoc.
    + rewrite (proj2 (Hfree _ Hway)).
      set (fs1 := <[done ++ [c] := Dir perm]> fs).
      destruct (decide (q = done ++ [c])) as [->|Hq'].
      * destruct (MkdirAll_go_lookup todo fs1 (done ++ [c]) (done ++ [c]))
          as [H|(H & _)].
        -- rewrite H. subst fs1. rewrite lookup_insert_eq. eauto.
        -- subst fs1. rewrite lookup_insert_eq in H. discriminate.
      * apply IH; try assumption.
        -- intros q' Hq''. rewrite <- app_assoc in Hq''.
           split; [|apply (Hfree q' Hq'')].
           intros [content Hf].
           apply (proj1 (Hfree q' Hq'')). exists content.
           subst fs1. destruct (decide (done ++ [c] = q')) as [<-|Hd].
           ++ rewrite lookup_insert_eq in Hf. discriminate.
           ++ now rewrite lookup_insert_ne in Hf.
        -- now rewrite <- app_assoc.
Qed.

Lemma MkdirAll_lookup fs p0 p :
  fst (MkdirAll fs p0 perm) !! p = fs !! p \/
  (fs !! p = None /\ fst (MkdirAll fs p0 perm) !! p = Some (Dir perm) /\
   p `prefix_of` p0).
Proof. apply (MkdirAll_go_lookup p0 fs [] p). Qed.

Lemma MkdirAll_dirs fs p0 q :
  way_free fs p0 ->
  q `prefix_of` p0 -> is_dir (fst (MkdirAll fs p0 perm)) q.
Proof.
  intros Hfree Hq. destruct (decide (q = [])) as [->|Hne]; [now left|].
  right. apply (MkdirAll_go_dirs p0 fs []); auto. apply prefix_nil.
Qed.

Lemma MkdirAll_file fs p0 p content :
  fst (MkdirAll fs p0 perm) !! p = Some (File content) <->
  fs !! p = Some (File content).
Proof.
  destruct (MkdirAll_lookup fs p0 p) as [->|(H1 & H2 & _)]; [reflexivity|].
  rewrite H1, H2. split; discriminate.
Qed.

Lemma MkdirAll_keeps_dir fs p0 p perm' :
  fs !! p = Some (Dir perm') ->
  fst (MkdirAll fs p0 perm) !! p = Some (Dir perm').
Proof.
  intros H. destruct (MkdirAll_lookup fs p0 p) as [->|(H1 & _)]; congruence.
Qed.

End MkdirAll.

(** *** The loop over the entries *)

Section Extract.
Variable IsPathSeparator : ascii -> bool.
Variable mkdir_denied : list string -> bool.
Variable create_denied : list string -> bool.

Local Abbreviation target := (target IsPathSeparator).
Local Abbreviation components := (components IsPathSeparator).
Local Abbreviation MkdirAll := (MkdirAll mkdir_denied).
Local Abbreviation way_free := (way_free mkdir_denied).
Local Abbreviation entry_ready :=
  (entry_ready IsPathSeparator mkdir_denied create_denied).
Local Abbreviation distinct_targets := (distinct_targets IsPathSeparator).
Local Abbreviation extracted := (extracted IsPathSeparator).
Local Abbreviation extract_entries :=
  (extract_entries IsPathSeparator mkdir_denied create_denied).

Lemma is_dirb_true fs p : is_dir fs p -> is_dirb fs p = true.
Proof.
  intros [->|[perm H]]; [reflexivity|].
  unfold is_dirb. destruct p; [reflexivity|]. now rewrite H.
Qed.

Lemma Create_ok fs p :
  p <> [] -> create_denied p = false -> is_dir fs (Dir_ p) ->
  (forall perm, fs !! p <> Some (Dir perm)) ->
  Create create_denied fs p = Some (<[p := File ""]> fs).
Proof.
  intros Hne Hden Hparent Hnodir. unfold Create.
  rewrite Hden, (is_dirb_true _ _ Hparent).
  destruct p as [|c p]; [congruence|].
  destruct (fs !! (c :: p)) as [[content|perm]|] eqn:Hp; try reflexivity.
  now destruct (Hnodir perm).
Qed.

Lemma way_free_mkdir fs p p0 perm :
  way_free fs p -> way_free (fst (MkdirAll fs p0 perm)) p.
Proof.
  intros Hfree q Hq. split; [|apply (Hfree q Hq)].
  intros [content Hf]. apply MkdirAll_file in Hf.
  apply (proj1 (Hfree q Hq)). now exists content.
Qed.

Lemma way_free_write fs p t data :
  way_free fs p -> ~ t `prefix_of` p -> way_free (<[t := File data]> fs) p.
Proof.
  intros Hfree Hout q Hq. split; [|apply (Hfree q Hq)].
  intros [content Hf]. destruct (decide (t = q)) as [->|Hne].
  - contradiction.
  - rewrite lookup_insert_ne in Hf by assumption.
    apply (proj1 (Hfree q Hq)). now exists content.
Qed.

(** An entry stays ready when directories are made on a way its
    target, if a file, is not part of. *)
Lemma entry_ready_mkdir root fs zf p0 perm :
  entry_ready root fs zf ->
  (IsDir zf = false -> ~ target root zf `prefix_of` p0) ->
  entry_ready root (fst (MkdirAll fs p0 perm)) zf.
Proof.
  unfold Zip.entry_ready. destruct (IsDir zf).
  - intros Hfree _. now apply way_free_mkdir.
  - intros (Hne & Hroot & Hden & Hfree & Hnodir & Hopen) Hout.
    split_and!; try assumption.
    + now apply way_free_mkdir.
    + intros perm' Hd.
      destruct (MkdirAll_lookup mkdir_denied perm fs p0 (target root zf))
        as [H|(_ & _ & H)].
      * rewrite H in Hd. now apply Hnodir in Hd.
      * now apply Hout.
Qed.

(** An entry stays ready when a file is written at a path that is not
    on the way to its target. *)
Lemma entry_ready_write root fs zf t data :
  entry_ready root fs zf ->
  ~ t `prefix_of` target root zf ->
  entry_ready root (<[t := File data]> fs) zf.
Proof.
  unfold Zip.entry_ready. intros Hready Hout.
  destruct (IsDir zf).
  - now apply way_free_write.
  - destruct Hready as (Hne & Hroot & Hden & Hfree & Hnodir & Hopen).
    split_and!; try assumption.
    + apply way_free_write; [assumption|].
      intros H. apply Hout. etrans; [exact H | apply removelast_prefix].
    + intros perm Hd. destruct (decide (t = target root zf)) as [->|Hne'].
      * now rewrite lookup_insert_eq in Hd.
      * rewrite lookup_insert_ne in Hd by assumption. now apply Hnodir in Hd.
Qed.

Lemma extract_entries_ok root entries : forall fs,
  Forall (entry_ready root fs) entries -> distinct_targets root entries ->
  exists fs',
    extract_entries root entries fs = (None, fs') /\
    (forall p perm, fs !! p = Some (Dir perm) -> fs' !! p = Some (Dir perm)) /\
    (forall p content, fs !! p = Some (File content) ->
       Forall (fun zf => IsDir zf = false -> target root zf <> p) entries ->
       fs' !! p = Some (File content)) /\
    Forall (extracted root fs') entries.
Proof.
  induction entries as [|zf rest IH]; intros fs Hready Hdistinct.
  - exists fs. simpl. repeat split; auto.
  - apply Forall_cons in Hready as [Hzf Hrest].
    destruct Hdistinct as [Hothers Hdistinct].
    rewrite Forall_forall in Hrest, Hothers.
    cbn [Zip.extract_entries]. fold (target root zf).
    set (t := target root zf) in *.
    unfold Zip.entry_ready in Hzf. fold t in Hzf.
    destruct (IsDir zf) eqn:Hkind.
    + (* a directory entry *)
      set (fs1 := fst (MkdirAll fs t (Mode zf))).
      destruct (IH fs1) as (fs' & Hrun & Hdirs & Hfiles & Hpost);
        [|assumption|].
      { apply Forall_forall. intros zf' Hin.
        apply entry_ready_mkdir; [now apply Hrest|].
        intros Hf. now apply (Hothers zf' Hin). }
      exists fs'. repeat split.
      * exact Hrun.
      * intros p perm Hp. apply Hdirs. now apply MkdirAll_keeps_dir.
      * intros p content Hp Hne. apply Forall_cons in Hne as [_ Hne].
        apply Hfiles; [|assumption]. now apply MkdirAll_file.
      * apply Forall_cons. split; [|assumption].
        unfold Zip.extracted. fold t. rewrite Hkind.
        intros q Hq. apply (is_dir_mono fs1); [exact Hdirs|].
        now apply MkdirAll_dirs.
    + (* a file entry *)
      destruct Hzf as (Hne & Hroot & Hden & Hfree & Hnodir & data & Hopen).
      set (fs1 := fst (MkdirAll fs (Dir_ t) perm_0777)).
      assert (Hshort : ~ t `prefix_of` Dir_ t).
      { intros H. apply (removelast_neq t Hne).
        apply (anti_symm prefix); [apply removelast_prefix | exact H]. }
      assert (Hparent : is_dir fs1 (Dir_ t)).
      { apply MkdirAll_dirs; [exact Hfree | reflexivity]. }
      assert (Hnodir1 : forall perm, fs1 !! t <> Some (Dir perm)).
      { intros perm Hd.
        destruct (MkdirAll_lookup mkdir_denied perm_0777 fs (Dir_ t) t)
          as [H|(_ & _ & H)].
        - fold fs1 in H. rewrite H in Hd. now apply Hnodir in Hd.
        - contradiction. }
      rewrite (Create_ok fs1 t Hne Hden Hparent Hnodir1), Hopen.
      cbn [delivered]. rewrite insert_insert_eq.
      set (fs3 := <[t := File data]> fs1).
      assert (Hkeep : forall p perm, fs1 !! p = Some (Dir perm) ->
                                     fs3 !! p = Some (Dir perm)).
      { intros p perm Hp1. subst fs3. rewrite lookup_insert_ne; [assumption|].
        intros ->. now apply Hnodir1 in Hp1. }
      destruct (IH fs3) as (fs' & Hrun & Hdirs & Hfiles & Hpost);
        [|assumption|].
      { apply Forall_forall. intros zf' Hin.
        apply entry_ready_write; [|now apply (Hothers zf' Hin)].
        apply entry_ready_mkdir; [now apply Hrest|].
        intros Hf Hpre. apply (proj2 (Hothers zf' Hin) Hf).
        etrans; [exact Hpre | apply removelast_prefix]. }
      exists fs'. repeat split.
      * exact Hrun.
      * intros p perm Hp. apply Hdirs, Hkeep.
        now apply MkdirAll_keeps_dir.
      * intros p content Hp Hnot. apply Forall_cons in Hnot as [Hnot1 Hnot].
        apply Hfiles; [|assumption].
        subst fs3. rewrite lookup_insert_ne by (now apply Hnot1).
        now apply MkdirAll_file.
      * apply Forall_cons. split; [|assumption].
        unfold Zip.extracted. fold t. rewrite Hkind.
        exists data. split_and!; [assumption| |].
        -- apply Hfiles; [subst fs3; apply lookup_insert_eq|].
           apply Forall_forall. intros zf' Hin _ Heq.
           apply (proj1 (Hothers zf' Hin) eq_refl).
           fold (target root zf'). now rewrite Heq.
        -- intros q Hq. apply (is_dir_mono fs3); [exact Hdirs|].
           apply (is_dir_mono fs1); [exact Hkeep|].
           now apply MkdirAll_dirs.
Qed.

Variable zip_OpenReader : string -> option (list zipFile).

Local Abbreviation extractZip :=
  (extractZip IsPathSeparator mkdir_denied create_denied zip_OpenReader).
Local Abbreviation Clean := (Clean IsPathSeparator).

(** C8 (as amended): for an archive that opens, whose entry names and
    target path have no [..] component, whose file entries open and
    stream to their end and never aim at another entry's target or
    above it, on a file system that puts no regular file and no
    refusal on the way and no directory where a file goes,
    [extractZip] returns nil; the target directory and every directory
    on the way to it are then directories; every entry lies under the
    target directory; every directory entry is a directory at its
    joined path, and so is every directory on the way to it; and every
    file entry is a file at its joined path holding exactly the bytes
    of the entry, every directory on the way to it being a
    directory. *)
Theorem extractZip_reproduces (path extractTo : string)
    (entries : list zipFile) (fs : gmap (list string) node)
    (Hopen : zip_OpenReader path = Some entries)
    (Htarget : ~ In ".." (components extractTo))
    (Hnames : Forall (fun zf => ~ In ".." (components (Name zf))) entries)
    (Hroot : way_free fs (Clean extractTo))
    (Hready : Forall (entry_ready (Clean extractTo) fs) entries)
    (Hdistinct : distinct_targets (Clean extractTo) entries) :
  exists fs',
    extractZip path extractTo fs = (None, fs') /\
    (forall q, q `prefix_of` Clean extractTo -> is_dir fs' q) /\
    Forall (fun zf =>
              Clean extractTo `prefix_of` target (Clean extractTo) zf /\
              extracted (Clean extractTo) fs' zf) entries.
Proof.
  unfold Zip.extractZip. rewrite Hopen.
  set (root := Clean extractTo) in *.
  set (fs1 := fst (MkdirAll fs root perm_0700)).
  destruct (extract_entries_ok root entries fs1)
    as (fs' & Hrun & Hdirs & _ & Hpost); [|assumption|].
  { rewrite Forall_forall in Hready. apply Forall_forall. intros zf Hin.
    apply entry_ready_mkdir; [now apply Hready|].
    intros Hfile. specialize (Hready zf Hin).
    unfold Zip.entry_ready in Hready. rewrite Hfile in Hready.
    apply Hready. }
  exists fs'. split_and!; [exact Hrun | |].
  - intros q Hq. apply (is_dir_mono fs1); [exact Hdirs|].
    now apply MkdirAll_dirs.
  - rewrite Forall_forall in Hnames, Hpost. apply Forall_forall.
    intros zf Hin. split; [|now apply Hpost].
    unfold Zip.target, Zip.Join. apply fold_clean_prefix. now apply Hnames.
Qed.

End Extract.

Lemma extractZip_reproduces_witness :
  exists fs',
    extractZip slash nothing_denied nothing_denied hello_zip
      "pkg.zip" "/tmp/out" ∅ = (None, fs') /\
    is_dir fs' ["tmp"] /\ is_dir fs' ["tmp"; "out"] /\
    fs' !! ["tmp"; "out"; "a"; "b.txt"] = Some (File "hello") /\
    is_dir fs' ["tmp"; "out"; "a"].
Proof.
  destruct (extractZip_reproduces slash nothing_denied nothing_denied hello_zip
              "pkg.zip" "/tmp/out"
              [{| Name := "a/b.txt"; IsDir := false; Mode := 420;
                  Open := Some {| delivered := "hello"; complete := true |} |}]
              ∅) as (fs' & Hrun & Hroot & Hpost).
  - reflexivity.
  - vm_compute. intros [H|[H|[H|[]]]]; discriminate H.
  - constructor; [|constructor]. vm_compute.
    intros [H|[H|[]]]; discriminate H.
  - intros q _. split; [|reflexivity].
    intros [content H]. now rewrite lookup_empty in H.
  - constructor; [|constructor]. unfold entry_ready. cbn [IsDir].
    split_and!.
    + discriminate.
    + intros H. apply prefix_length in H. vm_compute in H. lia.
    + reflexivity.
    + intros q _. split; [|reflexivity].
      intros [content H]. now rewrite lookup_empty in H.
    + intros perm H. now rewrite lookup_empty in H.
    + now exists "hello".
  - split; constructor.
  - exists fs'. split; [exact Hrun|].
    apply Forall_cons in Hpost as [[_ (data & Hdata & Hfile & Hdir)] _].
    injection Hdata as <-. split_and!.
    + apply Hroot. now exists ["out"].
    + now apply Hroot.
    + exact Hfile.
    + now apply Hdir.
Defined.

(** C8 as stated fails: the archive is the well-formed [pkg.zip], but
    a regular file stands at [/tmp/out/a].  [os.MkdirAll] cannot make
    the directory, [os.Create] fails and its error is returned: the
    entry [a/b.txt] is not extracted and [/tmp/out/a] is no
    directory. *)
Lemma extractZip_blocked_by_file :
  extractZip slash nothing_denied nothing_denied hello_zip
    "pkg.zip" "/tmp/out" blocked_disk =
  (Some (CreateError ["tmp"; "out"; "a"; "b.txt"]), blocked_disk) /\
  blocked_disk !! ["tmp"; "out"; "a"; "b.txt"] = None /\
  blocked_disk !! ["tmp"; "out"; "a"] = Some (File "in the way").
Proof. vm_compute. split_and!; reflexivity. Qed.

(** The errors the loop does return end the extraction at once and keep
    what was extracted: here the second entry does not open. *)
Example extractZip_unreadable_entry :
  extractZip slash nothing_denied nothing_denied unreadable_zip
    "pkg.zip" "out" ∅ =
  (Some (OpenError "b.txt"),
   <[["out"; "b.txt"] := File ""]>
     (<[["out"; "a.txt"] := File "x"]> (<[["out"] := Dir perm_0700]> ∅))).
Proof. vm_compute. reflexivity. Qed.

Lemma extractZip_OpenReader_error IsPathSeparator mkdir_denied create_denied
    zip_OpenReader path extractTo fs :
  zip_OpenReader path = None ->
  fst (extractZip IsPathSeparator mkdir_denied create_denied zip_OpenReader
         path extractTo fs) = Some OpenReaderError.
Proof. intros H. unfold extractZip. now rewrite H. Qed.

(** Whether the streams end well or break has no influence on what the
    loop does or returns. *)
Lemma extract_entries_ignores_copy_error IsPathSeparator mkdir_denied
    create_denied root b entries : forall fs,
  extract_entries IsPathSeparator mkdir_denied create_denied root
    (map (with_complete b) entries) fs =
  extract_entries IsPathSeparator mkdir_denied create_denied root entries fs.
Proof.
  induction entries as [|zf rest IH]; intros fs; [reflexivity|].
  cbn [map extract_entries with_complete Name IsDir Mode Open].
  destruct (IsDir zf); [apply IH|].
  destruct (Create _ _ _) as [fs1|]; [|reflexivity].
  destruct (Open zf) as [source|]; [|reflexivity].
  cbn [delivered]. apply IH.
Qed.

(** C9 fails in the code: the stream of the only entry breaks after two
    bytes, and [extractZip] still returns nil, leaving the two bytes as
    the file. *)
Lemma extractZip_copy_error_ignored :
  extractZip slash nothing_denied nothing_denied broken_zip
    "pkg.zip" "/tmp/out" ∅ =
  (None,
   <[["tmp"; "out"; "a"; "b.txt"] := File "he"]>
     (<[["tmp"; "out"; "a"] := Dir perm_0777]>
        (<[["tmp"; "out"] := Dir perm_0700]> (<[["tmp"] := Dir perm_0700]> ∅)))).
Proof. vm_compute. reflexivity. Qed.

End ZipFacts.

(** ** Further properties of the same functions *)

Module ExpandMore.
Import GoStrings GoStringsFacts Expand ExpandFacts.

Lemma Contains_byte a s c :
  Contains (String a s) (String c "") = Ascii.eqb a c || Contains s (String c "").
Proof. cbn [Contains HasPrefix]. now destruct (Ascii.eqb a c). Qed.

(** [SplitN] gives two parts exactly when the separator occurs. *)
Lemma SplitN2_cases v c :
  (Contains v (String c "") = false /\ SplitN2 v c = [v]) \/
  (Contains v (String c "") = true /\
   exists k val, SplitN2 v c = [k; val] /\ v = k +:+ String c val /\
                 all_bytes (not_byte c) k = true).
Proof.
  induction v as [|a v IH].
  - left. split; reflexivity.
  - rewrite Contains_byte. cbn [SplitN2].
    destruct (Ascii.eqb_spec a c) as [->|Hne].
    + right. split; [reflexivity|]. exists "", v. repeat split.
    + destruct IH as [[Hc Hs]|(Hc & k & val & Hs & Hv & Hk)].
      * left. rewrite Hs, Hc. split; reflexivity.
      * right. rewrite Hc. split; [reflexivity|].
        exists (String a k), val. rewrite Hs. repeat split.
        -- now rewrite append_cons, <- Hv.
        -- simpl. rewrite Hk. unfold not_byte.
           apply Ascii.eqb_neq in Hne. now rewrite Hne.
Qed.

Lemma SplitN2_join k val c :
  all_bytes (not_byte c) k = true -> SplitN2 (k +:+ String c val) c = [k; val].
Proof.
  induction k as [|a k IH]; intros Hk.
  - rewrite append_nil_l. cbn [SplitN2]. now rewrite Ascii.eqb_refl.
  - simpl in Hk. apply andb_true_iff in Hk as [Ha Hk].
    rewrite append_cons. cbn [SplitN2].
    unfold not_byte in Ha. apply negb_true_iff in Ha. rewrite Ha.
    now rewrite (IH Hk).
Qed.

Lemma environMap_step_None ret v :
  environMap_step ret v = None <-> Contains v "=" = false.
Proof.
  unfold environMap_step.
  destruct (SplitN2_cases v "=") as [[Hc Hs]|(Hc & k & val & Hs & _ & _)].
  - rewrite Hs. tauto.
  - rewrite Hs, Hc. destruct (_ && _); split; discriminate.
Qed.

Lemma environMap_loop_app env1 : forall ret env2,
  environMap_loop ret (env1 ++ env2) =
  match environMap_loop ret env1 with
  | Some ret' => environMap_loop ret' env2
  | None => None
  end.
Proof.
  induction env1 as [|v env1 IH]; intros ret env2; simpl; [reflexivity|].
  destruct (environMap_step ret v); [apply IH | reflexivity].
Qed.

Lemma environMap_loop_None env : forall ret,
  environMap_loop ret env = None <->
  Exists (fun v => Contains v "=" = false) env.
Proof.
  induction env as [|v env IH]; intros ret; simpl.
  - split; [discriminate | intros H; inversion H].
  - rewrite Exists_cons.
    destruct (environMap_step ret v) as [ret'|] eqn:Hs.
    + rewrite IH. split; [tauto|]. intros [H|H]; [|exact H].
      apply (environMap_step_None ret) in H. congruence.
    + split; [|reflexivity]. intros _. left.
      now apply (environMap_step_None ret).
Qed.

(** X1: [environMap] panics exactly when some entry of the environment
    has no ["="]; [expandString] then panics whatever the template. *)
Theorem environMap_panics_iff (env : list string) :
  (environMap env = None <-> Exists (fun v => Contains v "=" = false) env) /\
  (environMap env = None ->
   forall s context, exists why, expandString env s context = Panicked why).
Proof.
  split; [apply environMap_loop_None|].
  intros H s context. unfold expandString. rewrite H. eauto.
Qed.

(** X2: adding the entry [name=value] at the end of a well-formed
    environment files [value], whatever it contains, under the normalized
    name, replacing what an earlier entry put there; the entry ["="] alone
    is skipped. *)
Theorem environMap_last_entry (env : list string) (data : gmap string string)
    (name value : string)
    (Henv : environMap env = Some data)
    (Hname : all_bytes (not_byte "=") name = true)
    (Hascii : is_ascii name = true) :
  (name = "" /\ value = "" ->
   environMap (env ++ [name +:+ "=" +:+ value]) = Some data) /\
  (~ (name = "" /\ value = "") ->
   environMap (env ++ [name +:+ "=" +:+ value]) =
     Some (<[normalized name := value]> data) /\
   forall data', environMap (env ++ [name +:+ "=" +:+ value]) = Some data' ->
     data' !! normalized name = Some value).
Proof.
  unfold environMap in *. rewrite environMap_loop_app, Henv.
  cbn [environMap_loop]. unfold environMap_step.
  change ("=" +:+ value) with (String "=" value).
  rewrite (SplitN2_join name value "=" Hname).
  split.
  - intros [-> ->]. reflexivity.
  - intros Hne.
    assert ((name =? "")%string && (value =? "")%string = false) as ->.
    { apply andb_false_iff.
      destruct (String.eqb_spec name ""), (String.eqb_spec value ""); tauto. }
    split; [reflexivity|]. intros data' [= <-]. apply lookup_insert_eq.
Qed.

Lemma environMap_last_entry_witness :
  environMap (["Path=C:\bin"; "TEMP=C:\t"] ++ ["PATH" +:+ "=" +:+ "D:\tools;a=b"]) =
  Some (<["PATH" := "D:\tools;a=b"]>
          (<["TEMP" := "C:\t"]> (<["PATH" := "C:\bin"]> ∅))).
Proof.
  refine (proj1 (proj2 (environMap_last_entry ["Path=C:\bin"; "TEMP=C:\t"]
            (<["TEMP" := "C:\t"]> (<["PATH" := "C:\bin"]> ∅))
            "PATH" "D:\tools;a=b" _ _ _) _)).
  - reflexivity.
  - reflexivity.
  - reflexivity.
  - intros [H _]. discriminate H.
Defined.

Lemma upper_byte_not_lower a : is_lower (upper_byte a) = false.
Proof. destruct a as [[] [] [] [] [] [] [] []]; reflexivity. Qed.

Lemma ToUpper_no_lower s : no_lower (ToUpper s) = true.
Proof.
  unfold no_lower. induction s as [|a s IH]; simpl; [reflexivity|].
  now rewrite upper_byte_not_lower, IH.
Qed.

Lemma all_bytes_drop p n : forall s,
  all_bytes p s = true -> all_bytes p (drop n s) = true.
Proof.
  induction n as [|n IH]; intros s H; [exact H|].
  destruct s as [|a s]; [reflexivity|].
  simpl in *. apply andb_true_iff in H as [_ H]. now apply IH.
Qed.

(** Replacing keeps every byte within the bytes of the text and of the
    replacement. *)
Lemma ReplaceAll_go_all p old new fuel : forall s,
  all_bytes p s = true -> all_bytes p new = true ->
  all_bytes p (ReplaceAll_go fuel s old new) = true.
Proof.
  induction fuel as [|fuel IH]; intros s Hs Hnew; [exact Hs|].
  cbn [ReplaceAll_go]. destruct s as [|a s]; [reflexivity|].
  destruct (HasPrefix (String a s) old).
  - rewrite all_bytes_append, Hnew. simpl.
    apply IH; [|exact Hnew]. now apply all_bytes_drop.
  - simpl in *. apply andb_true_iff in Hs as [Ha Hs].
    rewrite Ha. simpl. now apply IH.
Qed.

Lemma normalized_no_lower name : no_lower (normalized name) = true.
Proof.
  unfold normalized, ReplaceAll, no_lower.
  apply ReplaceAll_go_all; [apply ToUpper_no_lower | reflexivity].
Qed.

Lemma environMap_loop_no_lower env : forall ret data,
  (forall k v, ret !! k = Some v -> no_lower k = true) ->
  environMap_loop ret env = Some data ->
  forall k v, data !! k = Some v -> no_lower k = true.
Proof.
  induction env as [|e env IH]; intros ret data Hret; simpl.
  - intros [= <-]. exact Hret.
  - destruct (environMap_step ret e) as [ret'|] eqn:Hstep; [|discriminate].
    apply IH. unfold environMap_step in Hstep.
    destruct (SplitN2 e "=") as [|k0 [|val [|? ?]]]; try discriminate.
    destruct (_ && _); injection Hstep as <-; [exact Hret|].
    intros k v. fold (normalized k0).
    destruct (decide (normalized k0 = k)) as [<-|Hne].
    + intros _. apply normalized_no_lower.
    + rewrite lookup_insert_ne by assumption. apply Hret.
Qed.

(** X3: no key of the environment map holds an ASCII lower-case letter,
    so a template name that has one is never found in the environment:
    its value comes from the caller's context or is the placeholder. *)
Theorem environMap_keys_upper (env : list string) (data : gmap string string)
    (Henv : environMap env = Some data) :
  (forall k v, data !! k = Some v -> no_lower k = true) /\
  (forall name context, no_lower name = false ->
     data !! name = None /\
     merged_value context data name =
       match context !! name with Some v => v | None => "<no value>" end).
Proof.
  assert (Hkeys : forall k v, data !! k = Some v -> no_lower k = true).
  { apply (environMap_loop_no_lower env ∅ data); [|exact Henv].
    intros k v H. now rewrite lookup_empty in H. }
  split; [exact Hkeys|].
  intros name context Hlow.
  assert (Hnone : data !! name = None).
  { destruct (data !! name) as [v|] eqn:Hv; [|reflexivity].
    apply Hkeys in Hv. congruence. }
  split; [exact Hnone|]. unfold merged_value. now rewrite Hnone.
Qed.

Lemma environMap_keys_upper_witness :
  (<["PATH" := "C:\bin"]> ∅ : gmap string string) !! "Path" = None /\
  merged_value {["Path" := "ctx"]} (<["PATH" := "C:\bin"]> ∅) "Path" = "ctx".
Proof.
  destruct (environMap_keys_upper ["Path=C:\bin"] (<["PATH" := "C:\bin"]> ∅)
              eq_refl) as [_ H].
  exact (H "Path" {["Path" := "ctx"]} eq_refl).
Defined.

(** X4: a string without ["{{"] expands to itself. *)
Theorem expandString_plain (env : list string) (data context : gmap string string)
    (s : string)
    (Henv : environMap env = Some data)
    (Hplain : Contains s "{{" = false) :
  expandString env s context = Returned s.
Proof.
  unfold expandString, Parse. rewrite Henv. cbn [parse_go].
  apply cut_None in Hplain. now rewrite Hplain.
Qed.

Lemma expandString_plain_witness :
  expandString ["A=1"] "msiexec /i {x} /qn" {["A" := "2"]} =
  Returned "msiexec /i {x} /qn".
Proof.
  apply (expandString_plain ["A=1"] (<["A" := "1"]> ∅)); reflexivity.
Defined.

(** X5: a template that opens an action with ["{{"] and holds no ["}}"]
    does not parse, and [expandString] panics. *)
Theorem expandString_unclosed_action (env : list string)
    (context : gmap string string) (s : string)
    (Hopen : Contains s "{{" = true)
    (Hunclosed : Contains s "}}" = false) :
  exists why, expandString env s context = Panicked why.
Proof.
  unfold expandString. destruct (environMap env) as [data|]; [|eauto].
  unfold Parse. cbn [parse_go].
  destruct (cut s "{{") as [[text rest]|] eqn:Hcut.
  - assert (Hrest : cut rest "}}" = None).
    { apply cut_None. destruct (Contains rest "}}") eqn:Hc; [|reflexivity].
      apply Contains_spec in Hc as (pre & post & ->).
      apply cut_Some in Hcut.
      assert (Contains s "}}" = true); [|congruence].
      apply Contains_spec. exists (text +:+ "{{" +:+ pre), post.
      rewrite Hcut. now rewrite !append_assoc. }
    rewrite Hrest. eauto.
  - apply cut_None in Hcut. congruence.
Qed.

Lemma expandString_unclosed_action_witness :
  exists why, expandString [] "http://x/{{.FOO" ∅ = Panicked why.
Proof.
  apply expandString_unclosed_action; reflexivity.
Defined.

End ExpandMore.

Module RunnerMore.
Import Runner.

(** X6: a non-empty invocation logs its command line first, whatever the
    child does, and the reboot notice after it exactly when the child
    exits with 3010. *)
Theorem system_log (os : Cmd -> behaviour) (name : string) (rest : list string) :
  let line := "Running " +:+ GoStrings.Join (name :: rest) " " in
  let notice := "Exit code 3010, needs reboot to complete install." in
  (os (Command name rest) = Exited 3010 ->
   fst (system os (name :: rest)) = [line; notice]) /\
  (os (Command name rest) <> Exited 3010 ->
   fst (system os (name :: rest)) = [line]).
Proof.
  intros line notice. unfold system. fold line.
  destruct (os (Command name rest)) as [msg|code| |msg]; simpl;
    try (split; [discriminate | reflexivity]).
  destruct (Z.eqb_spec code 0) as [->|H0]; simpl.
  - split; [discriminate | reflexivity].
  - destruct (Z.eqb_spec code 3010) as [->|H1]; simpl.
    + split; [reflexivity | congruence].
    + split; [congruence | reflexivity].
Qed.

End RunnerMore.

Module CrcMore.
Import GoStrings GoStringsFacts Crc CrcFacts.

Lemma update_loop_app p1 : forall crc p2,
  update_loop crc (p1 +:+ p2) = update_loop (update_loop crc p1) p2.
Proof.
  induction p1 as [|a p1 IH]; intros crc p2; [reflexivity|].
  rewrite append_cons. simpl. apply IH.
Qed.

Lemma lxor_mask_inj x y : Z.lxor x 0xffffffff = Z.lxor y 0xffffffff -> x = y.
Proof.
  intros H. apply (f_equal (fun z => Z.lxor z 0xffffffff)) in H.
  now rewrite !Z.lxor_assoc, Z.lxor_nilpotent, !Z.lxor_0_r in H.
Qed.

(** X7: two strings with the same checksum keep the same checksum when
    the same text is appended to both. *)
Theorem ChecksumIEEE_collision_extends (a b suffix : string)
    (Hsame : ChecksumIEEE a = ChecksumIEEE b) :
  ChecksumIEEE (a +:+ suffix) = ChecksumIEEE (b +:+ suffix) /\
  crc32s (a +:+ suffix) = crc32s (b +:+ suffix).
Proof.
  assert (H : ChecksumIEEE (a +:+ suffix) = ChecksumIEEE (b +:+ suffix)).
  { unfold ChecksumIEEE, Update in *. apply lxor_mask_inj in Hsame.
    now rewrite !update_loop_app, Hsame. }
  split; [exact H|]. unfold crc32s. now rewrite H.
Qed.

Lemma ChecksumIEEE_collision_extends_witness :
  crc32s ("plumless" +:+ ".example.com/setup.exe") =
  crc32s ("buckeroo" +:+ ".example.com/setup.exe").
Proof.
  apply (ChecksumIEEE_collision_extends "plumless" "buckeroo").
  vm_compute. reflexivity.
Defined.

Lemma hex_go_length fuel : forall n acc,
  0 <= n < 16 ^ Z.of_nat fuel -> (0 < fuel)%nat ->
  exists k : nat,
    (1 <= k <= fuel)%nat /\
    String.length (hex_go fuel n acc) = (k + String.length acc)%nat /\
    n < 16 ^ Z.of_nat k /\ ((1 < k)%nat -> 16 ^ (Z.of_nat k - 1) <= n).
Proof.
  induction fuel as [|fuel IH]; intros n acc Hn Hf; [lia|].
  cbn [hex_go].
  destruct (Z.eqb_spec (n / 16) 0) as [Hz|Hnz].
  - exists 1%nat. simpl String.length.
    assert (n < 16).
    { pose proof (Z.div_mod n 16 ltac:(lia)).
      pose proof (Z.mod_pos_bound n 16 ltac:(lia)). lia. }
    repeat split; try lia.
  - rewrite Nat2Z.inj_succ, Z.pow_succ_r in Hn by lia.
    assert (Hdiv : 0 <= n / 16 < 16 ^ Z.of_nat fuel).
    { split; [apply Z.div_pos; lia | apply Z.div_lt_upper_bound; lia]. }
    assert (Hfuel : (0 < fuel)%nat).
    { destruct fuel; [|lia]. simpl in Hdiv. lia. }
    destruct (IH (n / 16) (String (hex_digit (n mod 16)) acc) Hdiv Hfuel)
      as (k & Hk & Hlen & Hup & Hlow).
    exists (S k). rewrite Hlen. simpl String.length.
    pose proof (Z.div_mod n 16 ltac:(lia)) as Hdm.
    pose proof (Z.mod_pos_bound n 16 ltac:(lia)) as Hmod.
    repeat split; try lia.
    + rewrite Nat2Z.inj_succ, Z.pow_succ_r by lia. lia.
    + intros _. replace (Z.of_nat (S k) - 1) with (Z.of_nat k) by lia.
      destruct (Nat.eq_dec k 1%nat) as [->|Hk1].
      * change (16 ^ Z.of_nat 1) with 16.
        assert (0 < n / 16) by lia. lia.
      * assert (Hl : 16 ^ (Z.of_nat k - 1) <= n / 16) by (apply Hlow; lia).
        replace (Z.of_nat k) with (Z.succ (Z.of_nat k - 1)) by lia.
        rewrite Z.pow_succ_r by lia. lia.
Qed.

(** X8: the name [crc32s] gives has as many digits as the checksum
    needs, between one and eight, without padding; and two strings get
    the same name exactly when their checksums are equal. *)
Theorem crc32s_name (s t : string) :
  (1 <= String.length (crc32s s) <= 8)%nat /\
  ChecksumIEEE s < 16 ^ Z.of_nat (String.length (crc32s s)) /\
  ((1 < String.length (crc32s s))%nat ->
   16 ^ (Z.of_nat (String.length (crc32s s)) - 1) <= ChecksumIEEE s) /\
  (crc32s s = crc32s t <-> ChecksumIEEE s = ChecksumIEEE t).
Proof.
  pose proof (ChecksumIEEE_range s) as Hr.
  destruct (hex_go_length 8 (ChecksumIEEE s) "") as (k & Hk & Hlen & Hup & Hlow);
    [exact Hr | lia |].
  assert (Hlen' : String.length (crc32s s) = k).
  { unfold crc32s, SprintfX. rewrite Hlen. simpl. lia. }
  rewrite !Hlen'.
  split_and!; [lia | lia | exact Hup | exact Hlow | split].
  - intros H. destruct (crc32s_upper_hex s) as (_ & <- & _).
    destruct (crc32s_upper_hex t) as (_ & <- & _). now rewrite H.
  - intros H. unfold crc32s. now rewrite H.
Qed.

End CrcMore.

Module CacheMore.
Import GoStrings GoStringsFacts Fetch Crc Cache CacheFacts.

Section WithLibraries.
Variable url_Parse : string -> option string.
Variable NewClient : Client.

Local Abbreviation download := (download url_Parse NewClient).
Local Abbreviation maybeDownload := (maybeDownload url_Parse NewClient).
Local Abbreviation dispatch := (CustomGet_dispatch url_Parse NewClient).
Local Abbreviation plan := (download_plan url_Parse NewClient).

Lemma plan_frame c rawurl dst w p :
  p <> dst -> p <> dst +:+ ".tmp" ->
  files (replay (snd (plan c rawurl dst)) w) !! p = files w !! p.
Proof.
  intros Hd Ht. apply replay_frame.
  eapply Forall_impl; [apply plan_touched|].
  intros e He Hin. destruct (He p Hin) as [?|[? _]]; contradiction.
Qed.

(** X9: whatever happens, a download, forced or not, changes no file
    other than the destination and the one with the [.tmp] suffix. *)
Theorem download_frame c rawurl dst force w p
    (Hdst : p <> dst) (Htmp : p <> dst +:+ ".tmp") :
  files (snd (download c rawurl dst w)) !! p = files w !! p /\
  files (snd (maybeDownload c rawurl dst force w)) !! p = files w !! p.
Proof.
  assert (H : files (snd (download c rawurl dst w)) !! p = files w !! p).
  { rewrite download_eq. cbn [snd]. now apply plan_frame. }
  split; [exact H|]. rewrite maybeDownload_eq.
  destruct (negb _ || force); [exact H | reflexivity].
Qed.

(** X10: a download returns exactly when every step succeeds: the
    temporary file is created, the request is dispatched and answered with
    status 200, the copy, the close and the rename succeed.  The
    destination then holds the body, whatever it held before, the
    temporary file is gone and five events were performed. *)
Theorem download_succeeds_iff c rawurl dst w :
  let run := download c rawurl dst w in
  let tmp := dst +:+ ".tmp" in
  (fst run = Ok tt <->
   create_ok c = true /\ copy_stops c = None /\
   close_ok c = true /\ rename_ok c = true /\
   exists client request response,
     dispatch rawurl [] = Some (client, request) /\
     net c client request = Some response /\ StatusCode response = 200) /\
  (fst run = Ok tt ->
   exists client request response,
     dispatch rawurl [] = Some (client, request) /\
     net c client request = Some response /\
     files (snd run) = <[dst := Body response]> (delete tmp (files w)) /\
     trace (snd run) =
       trace w ++ [EvCreate tmp true; EvDo client request;
                   EvWrite tmp (Body response); EvClose tmp true;
                   EvRename tmp dst true]).
Proof.
  intros run tmp. subst run tmp. rewrite download_eq. cbn [fst snd].
  split; [split|].
  - intros Hok.
    destruct (plan_ok_files url_Parse NewClient c rawurl dst w Hok)
      as (client & request & response & Hd & Hn & Hs & Hc & Hcp & Hcl & Hr & _).
    split_and!; try assumption. exists client, request, response. auto.
  - intros (Hc & Hcp & Hcl & Hr & client & request & response & Hd & Hn & Hs).
    unfold download_plan. rewrite Hc, Hd, Hn, Hs, Hcp, Hcl, Hr. reflexivity.
  - intros Hok.
    destruct (plan_ok_files url_Parse NewClient c rawurl dst w Hok)
      as (client & request & response & Hd & Hn & _ & _ & _ & _ & _ & Hevs & Hf).
    exists client, request, response. split_and!; try assumption.
    now rewrite trace_replay, Hevs.
Qed.

(** X11: a download starts with the attempt to create the temporary
    file; it sends at most one request, and only after the file was
    created; and it writes bytes only from the body of a response with
    status 200, as a prefix of that body. *)
Theorem download_order c rawurl dst w :
  let tmp := dst +:+ ".tmp" in
  exists evs,
    trace (snd (download c rawurl dst w)) = trace w ++ evs /\
    head evs = Some (EvCreate tmp (create_ok c)) /\
    (length (List.filter is_Do evs) <= 1)%nat /\
    (forall client request, In (EvDo client request) evs ->
       create_ok c = true /\ dispatch rawurl [] = Some (client, request)) /\
    (forall path data, In (EvWrite path data) evs ->
       exists client request response n,
         net c client request = Some response /\ StatusCode response = 200 /\
         data = take n (Body response)).
Proof.
  intros tmp. subst tmp. exists (snd (plan c rawurl dst)).
  rewrite download_eq. cbn [snd]. split; [apply trace_replay|].
  assert (Htake : forall s, s = take (String.length s) s).
  { induction s as [|a s IH]; [reflexivity|]. simpl. now rewrite <- IH. }
  plan_cases c rawurl; cbn [snd head]; split_and!; try reflexivity;
    try (simpl; lia);
    try (intros cl rq Hin; simpl in Hin; intuition congruence);
    try (intros path data Hin; simpl in Hin;
         repeat (destruct Hin as [Hin|Hin]; try discriminate Hin);
         try contradiction).
  - injection Hin as <- <-. apply Z.eqb_eq in Hstatus.
    exists client, request, response, n. auto.
  - injection Hin as <- <-. apply Z.eqb_eq in Hstatus.
    exists client, request, response, (String.length (Body response)). auto.
  - injection Hin as <- <-. apply Z.eqb_eq in Hstatus.
    exists client, request, response, (String.length (Body response)). auto.
  - injection Hin as <- <-. apply Z.eqb_eq in Hstatus.
    exists client, request, response, (String.length (Body response)). auto.
Qed.

End WithLibraries.

Lemma download_frame_witness :
  let w := cached_world "C:\Temp\other.bin" "keep" in
  files (snd (download plain_url_Path plain_client (interrupted setup_exe 3)
                "http://example.com/a/setup.exe" "C:\Temp\BEFD800C.exe" w))
    !! "C:\Temp\other.bin" = Some "keep".
Proof.
  intros w.
  refine (proj1 (download_frame plain_url_Path plain_client
            (interrupted setup_exe 3) "http://example.com/a/setup.exe"
            "C:\Temp\BEFD800C.exe" false w "C:\Temp\other.bin" _ _)).
  - discriminate.
  - discriminate.
Defined.

(** A forced download over an old entry and a stale temporary file. *)
Example download_overwrites :
  let w := {| files := {["C:\Temp\X.exe" := "old"; "C:\Temp\X.exe.tmp" := "stale"]};
              trace := [] |} in
  files (snd (maybeDownload plain_url_Path plain_client (answering setup_exe)
                "http://example.com/a/setup.exe" "C:\Temp\X.exe" true w)) =
  {["C:\Temp\X.exe" := "MZ..."]}.
Proof. vm_compute. reflexivity. Qed.

End CacheMore.

Module CachePaths.
Import GoStrings GoStringsFacts Expand Fetch Crc CrcFacts Cache CacheFacts.

Lemma string_of_list_ascii_app l1 l2 :
  string_of_list_ascii (l1 ++ l2) =
  string_of_list_ascii l1 +:+ string_of_list_ascii l2.
Proof.
  induction l1 as [|a l1 IH]; [reflexivity|].
  simpl. now rewrite IH.
Qed.

Section WithSeparator.
Variable IsPathSeparator : ascii -> bool.

Local Abbreviation Ext := (Ext IsPathSeparator).
Local Abbreviation Ext_scan := (Ext_scan IsPathSeparator).
Local Abbreviation plain := (fun a => negb (IsPathSeparator a)).

(** What the backward scan of [filepath.Ext] returns: nothing, or the
    text from the last dot of the last path element on. *)
Lemma Ext_scan_spec reversed : forall suffix,
  all_bytes plain suffix = true ->
  all_bytes (not_byte ".") suffix = true ->
  Ext_scan reversed suffix = "" \/
  exists rest pre,
    Ext_scan reversed suffix = String "." rest /\
    all_bytes plain (String "." rest) = true /\
    all_bytes (not_byte ".") rest = true /\
    string_of_list_ascii (rev reversed) +:+ suffix = pre +:+ String "." rest.
Proof.
  induction reversed as [|a before IH]; intros suffix Hplain Hnodot.
  - now left.
  - cbn [Cache.Ext_scan].
    destruct (IsPathSeparator a) eqn:Hsep; [now left|].
    destruct (Ascii.eqb_spec a ".") as [->|Hne].
    + right. exists suffix, (string_of_list_ascii (rev before)).
      split_and!; try reflexivity; try assumption.
      * simpl. now rewrite Hsep, Hplain.
      * simpl. rewrite string_of_list_ascii_app. simpl.
        now rewrite append_assoc.
    + destruct (IH (String a suffix)) as [H|(rest & pre & H1 & H2 & H3 & H4)].
      * simpl. now rewrite Hsep, Hplain.
      * simpl. rewrite Hnodot. unfold not_byte.
        apply Ascii.eqb_neq in Hne. now rewrite Hne.
      * now left.
      * right. exists rest, pre. split_and!; try assumption.
        simpl. rewrite string_of_list_ascii_app. simpl.
        now rewrite append_assoc.
Qed.

Lemma Ext_spec path :
  Ext path = "" \/
  exists rest pre,
    Ext path = String "." rest /\
    all_bytes plain (String "." rest) = true /\
    all_bytes (not_byte ".") rest = true /\
    path = pre +:+ String "." rest.
Proof.
  unfold Cache.Ext.
  destruct (Ext_scan_spec (rev (list_ascii_of_string path)) "" eq_refl eq_refl)
    as [H|(rest & pre & H1 & H2 & H3 & H4)]; [now left|].
  right. exists rest, pre. split_and!; try assumption.
  rewrite rev_involutive, string_of_list_ascii_of_string in H4.
  now rewrite append_nil_r in H4.
Qed.

Lemma all_upper_hex_plain s :
  (forall a, is_upper_hex a = true -> IsPathSeparator a = false) ->
  all_upper_hex s = true -> all_bytes plain s = true.
Proof.
  intros Hhex. induction s as [|a s IH]; simpl; [reflexivity|].
  intros H. apply andb_true_iff in H as [Ha Hs].
  now rewrite (Hhex a Ha), (IH Hs).
Qed.

Variable url_Parse : string -> option string.
Variable NewClient : Client.
Variable tempPath : string.
Variable filepath_Join : string -> string -> string.

Local Abbreviation downloadExt :=
  (downloadExt url_Parse NewClient tempPath filepath_Join IsPathSeparator).
Local Abbreviation downloadAutoExt :=
  (downloadAutoExt url_Parse NewClient tempPath filepath_Join IsPathSeparator).
Local Abbreviation cachePath_spec :=
  (cachePath_spec url_Parse tempPath filepath_Join IsPathSeparator).

Lemma downloadExt_returns c rawurl ext force w p w' :
  downloadExt c rawurl ext force w = (Ok p, w') ->
  cachePath_spec rawurl ext = Some p /\
  w' = snd (Cache.maybeDownload url_Parse NewClient c rawurl p force w) /\
  fst (Cache.maybeDownload url_Parse NewClient c rawurl p force w) = Ok tt.
Proof.
  rewrite downloadExt_eq.
  destruct (cachePath_spec rawurl ext) as [q|]; [|discriminate].
  destruct (Cache.maybeDownload url_Parse NewClient c rawurl q force w)
    as [[[]|f] w1] eqn:Hm; [|discriminate].
  intros [= <- <-]. rewrite Hm. repeat split.
Qed.

(** X12: where no hexadecimal digit is a path separator, the file name
    [downloadAutoExt] joins to the temporary directory holds no path
    separator: it is the hexadecimal checksum followed by nothing or by
    the last dot of the URL path's last element and what follows it. *)
Theorem downloadAutoExt_name c rawurl force w p w'
    (Hhex : forall a, is_upper_hex a = true -> IsPathSeparator a = false)
    (Hrun : downloadAutoExt c rawurl force w = (Ok p, w')) :
  exists path ext,
    url_Parse rawurl = Some path /\
    p = filepath_Join tempPath (crc32s rawurl +:+ ext) /\
    all_bytes plain (crc32s rawurl +:+ ext) = true /\
    (ext = "" \/
     exists rest pre, ext = String "." rest /\
       all_bytes (not_byte ".") rest = true /\ path = pre +:+ ext).
Proof.
  unfold Cache.downloadAutoExt in Hrun.
  apply downloadExt_returns in Hrun as (Hspec & _ & _).
  unfold Cache.cachePath_spec in Hspec.
  destruct (url_Parse rawurl) as [path|]; [|discriminate].
  cbn in Hspec. injection Hspec as <-.
  exists path, (Ext path). split; [reflexivity|]. split; [reflexivity|].
  destruct (crc32s_upper_hex rawurl) as (Hup & _ & _).
  rewrite ExpandFacts.all_bytes_append, (all_upper_hex_plain _ Hhex Hup).
  destruct (Ext_spec path) as [->|(rest & pre & H1 & H2 & H3 & H4)].
  - split; [reflexivity | now left].
  - rewrite H1, H2. split; [reflexivity|]. right.
    exists rest, pre. auto.
Qed.

(** X13: two different URLs with the same checksum, asked for with the
    same explicit extension, share one cache entry: once the first was
    fetched, the unforced request for the second returns the first one's
    file without any download. *)
Theorem downloadExt_collision c c' u1 u2 ext force w p w'
    (Hext : ext <> "")
    (Hcrc : ChecksumIEEE u1 = ChecksumIEEE u2)
    (Hparse : is_Some (url_Parse u2))
    (Hfirst : downloadExt c u1 ext force w = (Ok p, w')) :
  downloadExt c' u2 ext false w' = (Ok p, w') /\ is_Some (files w' !! p).
Proof.
  apply downloadExt_returns in Hfirst as (Hspec & -> & Hok).
  split; [|now apply maybeDownload_ok_exists].
  rewrite downloadExt_eq.
  assert (Hspec2 : cachePath_spec u2 ext = Some p).
  { unfold Cache.cachePath_spec in *. destruct Hparse as [path2 ->].
    destruct (url_Parse u1) as [path1|]; [|discriminate].
    apply String.eqb_neq in Hext. rewrite Hext in *.
    now rewrite <- Hcrc. }
  rewrite Hspec2.
  rewrite (maybeDownload_hit url_Parse NewClient c' u2 p); [reflexivity|].
  now apply maybeDownload_ok_exists.
Qed.

End WithSeparator.

Lemma windows_hex_plain a :
  is_upper_hex a = true -> windows_IsPathSeparator a = false.
Proof. destruct a as [[] [] [] [] [] [] [] []]; vm_compute; congruence. Qed.

Lemma downloadAutoExt_name_witness :
  exists path ext,
    plain_url_Path "http://example.com/a.b/setup.exe" = Some path /\
    "C:\Temp\" +:+ crc32s "http://example.com/a.b/setup.exe" +:+ ".exe" =
      windows_Join "C:\Temp" (crc32s "http://example.com/a.b/setup.exe" +:+ ext) /\
    all_bytes (fun a => negb (windows_IsPathSeparator a))
      (crc32s "http://example.com/a.b/setup.exe" +:+ ext) = true /\
    (ext = "" \/
     exists rest pre, ext = String "." rest /\
       all_bytes (not_byte ".") rest = true /\ path = pre +:+ ext).
Proof.
  apply (downloadAutoExt_name windows_IsPathSeparator plain_url_Path plain_client
           "C:\Temp" windows_Join (answering setup_exe)
           "http://example.com/a.b/setup.exe" false empty_world _
           (snd (downloadAutoExt plain_url_Path plain_client "C:\Temp" windows_Join
                   windows_IsPathSeparator (answering setup_exe)
                   "http://example.com/a.b/setup.exe" false empty_world))).
  - exact windows_hex_plain.
  - vm_compute. reflexivity.
Defined.

Lemma downloadExt_collision_witness :
  let first := downloadExt plain_url_Path plain_client "C:\Temp" windows_Join
                 windows_IsPathSeparator (answering setup_exe)
                 "http://x/plumless" ".exe" false empty_world in
  downloadExt plain_url_Path plain_client "C:\Temp" windows_Join
    windows_IsPathSeparator (interrupted setup_exe 0)
    "http://x/buckeroo" ".exe" false (snd first) =
  (Ok "C:\Temp\E3CAF5FA.exe", snd first).
Proof.
  intros first.
  refine (proj1 (downloadExt_collision windows_IsPathSeparator plain_url_Path
            plain_client "C:\Temp" windows_Join (answering setup_exe)
            (interrupted setup_exe 0) "http://x/plumless" "http://x/buckeroo"
            ".exe" false empty_world "C:\Temp\E3CAF5FA.exe" (snd first) _ _ _ _)).
  - discriminate.
  - vm_compute. reflexivity.
  - eexists. reflexivity.
  - vm_compute. reflexivity.
Defined.

End CachePaths.

Module ZipMore.
Import GoStrings GoStringsFacts Zip ZipFacts.

Section Extract.
Variable IsPathSeparator : ascii -> bool.
Variable mkdir_denied : list string -> bool.
Variable create_denied : list string -> bool.

Local Abbreviation target := (target IsPathSeparator).
Local Abbreviation Join := (Join IsPathSeparator).
Local Abbreviation components := (components IsPathSeparator).
Local Abbreviation MkdirAll := (MkdirAll mkdir_denied).
Local Abbreviation way_free := (way_free mkdir_denied).
Local Abbreviation Create := (Create create_denied).
Local Abbreviation extract_entries :=
  (extract_entries IsPathSeparator mkdir_denied create_denied).

(** X14: extracting a list of entries is extracting its first part and
    then, when that returned no error, the rest from the state reached;
    after an error nothing of the rest is looked at. *)
Theorem extract_entries_app root l1 l2 fs :
  extract_entries root (l1 ++ l2) fs =
  match extract_entries root l1 fs with
  | (None, fs1) => extract_entries root l2 fs1
  | (Some err, fs1) => (Some err, fs1)
  end.
Proof.
  revert fs. induction l1 as [|zf l1 IH]; intros fs; [reflexivity|].
  cbn [app Zip.extract_entries].
  destruct (IsDir zf); [apply IH|].
  destruct (Zip.Create _ _ _) as [fs1|]; [|reflexivity].
  destruct (Open zf) as [source|]; [apply IH | reflexivity].
Qed.

Lemma Create_inv fs p fs' :
  Create fs p = Some fs' ->
  fs' = <[p := File ""]> fs /\ forall perm, fs !! p <> Some (Dir perm).
Proof.
  unfold Zip.Create. destruct (create_denied p); [discriminate|].
  destruct p as [|c p]; [discriminate|].
  destruct (is_dirb fs (Dir_ (c :: p))); [|discriminate].
  destruct (fs !! (c :: p)) as [[content|perm]|] eqn:Hp; try discriminate;
    intros [= <-]; split; try reflexivity; congruence.
Qed.

(** What one pass over the entries can do to a path. *)
Lemma extract_entries_lookup root entries : forall fs p,
  let fs' := snd (extract_entries root entries fs) in
  (forall perm, fs !! p = Some (Dir perm) -> fs' !! p = Some (Dir perm)) /\
  (forall content, fs !! p = Some (File content) ->
     exists content', fs' !! p = Some (File content')) /\
  (Forall (fun zf => IsDir zf = false -> target root zf <> p) entries ->
   forall content, fs' !! p = Some (File content) <-> fs !! p = Some (File content)).
Proof.
  induction entries as [|zf rest IH]; intros fs p; cbn zeta.
  - cbn. split_and!; eauto.
  - cbn [Zip.extract_entries].
    change (Zip.Join IsPathSeparator root (Name zf)) with (target root zf).
    destruct (IsDir zf) eqn:Hkind.
    + destruct (IH (fst (MkdirAll fs (target root zf) (Mode zf))) p)
        as (Hd & Hf & Hn).
      split_and!.
      * intros perm H. apply Hd. now apply MkdirAll_keeps_dir.
      * intros content H. apply (Hf content). now apply MkdirAll_file.
      * intros Hall content. apply Forall_cons in Hall as [_ Hall].
        etrans; [apply (Hn Hall) | apply MkdirAll_file].
    + set (fs1 := fst (MkdirAll fs (Dir_ (target root zf)) perm_0777)).
      assert (H1d : forall perm, fs !! p = Some (Dir perm) ->
                fs1 !! p = Some (Dir perm))
        by (intros perm H; now apply MkdirAll_keeps_dir).
      assert (H1f : forall content, fs1 !! p = Some (File content) <->
                fs !! p = Some (File content))
        by (intros content; apply MkdirAll_file).
      destruct (Zip.Create create_denied fs1 (target root zf)) as [fs2|] eqn:Hc.
      * apply Create_inv in Hc as [-> Hnodir].
        assert (H2d : forall perm, fs !! p = Some (Dir perm) ->
                  forall data, <[target root zf := File data]> fs1 !! p
                               = Some (Dir perm)).
        { intros perm H data. rewrite lookup_insert_ne; [now apply H1d|].
          intros Heq. apply (Hnodir perm). rewrite Heq. now apply H1d. }
        assert (H2f : forall content, fs !! p = Some (File content) ->
                  forall data, exists content',
                    <[target root zf := File data]> fs1 !! p = Some (File content')).
        { intros content H data.
          destruct (decide (target root zf = p)) as [Heq|Hne].
          - rewrite Heq, lookup_insert_eq. eauto.
          - rewrite lookup_insert_ne by assumption. exists content.
            now apply H1f. }
        assert (H2n : target root zf <> p -> forall data content,
                  <[target root zf := File data]> fs1 !! p = Some (File content)
                  <-> fs !! p = Some (File content)).
        { intros Hne data content. rewrite lookup_insert_ne by assumption.
          apply H1f. }
        destruct (Open zf) as [source|].
        -- rewrite insert_insert_eq.
           destruct (IH (<[target root zf := File (delivered source)]> fs1) p)
             as (Hd & Hf & Hn).
           split_and!.
           ++ intros perm H. apply Hd. now apply H2d.
           ++ intros content H.
              destruct (H2f content H (delivered source)) as [c' Hc'].
              now apply (Hf c').
           ++ intros Hall content. apply Forall_cons in Hall as [Hzf Hall].
              etrans; [apply (Hn Hall) | apply H2n; now apply Hzf].
        -- cbn [snd]. split_and!.
           ++ intros perm H. now apply H2d.
           ++ intros content H. now apply (H2f content).
           ++ intros Hall content. apply Forall_cons in Hall as [Hzf _].
              apply H2n. now apply Hzf.
      * cbn [snd]. split_and!; [exact H1d | | intros _; exact H1f].
        intros content H. exists content. now apply H1f.
Qed.

Variable zip_OpenReader : string -> option (list zipFile).

Local Abbreviation extractZip :=
  (extractZip IsPathSeparator mkdir_denied create_denied zip_OpenReader).
Local Abbreviation Clean := (Clean IsPathSeparator).

(** X15: whatever the archive and whether or not it fails, [extractZip]
    removes nothing and undoes nothing: a directory stays the directory it
    was, a regular file stays a regular file, and a regular file that no
    file entry aims at keeps its content. *)
Theorem extractZip_keeps path extractTo fs p :
  let fs' := snd (extractZip path extractTo fs) in
  (forall perm, fs !! p = Some (Dir perm) -> fs' !! p = Some (Dir perm)) /\
  (forall content, fs !! p = Some (File content) ->
     exists content', fs' !! p = Some (File content')) /\
  (forall content, fs !! p = Some (File content) ->
     (forall entries zf, zip_OpenReader path = Some entries -> In zf entries ->
        IsDir zf = false -> target (Clean extractTo) zf <> p) ->
     fs' !! p = Some (File content)).
Proof.
  cbn zeta. unfold Zip.extractZip.
  set (fs1 := fst (MkdirAll fs (Clean extractTo) perm_0700)).
  assert (H1d : forall perm, fs !! p = Some (Dir perm) ->
            fs1 !! p = Some (Dir perm))
    by (intros perm H; now apply MkdirAll_keeps_dir).
  assert (H1f : forall content, fs1 !! p = Some (File content) <->
            fs !! p = Some (File content))
    by (intros content; apply MkdirAll_file).
  destruct (zip_OpenReader path) as [entries|]; cbn [snd].
  - destruct (extract_entries_lookup (Clean extractTo) entries fs1 p)
      as (Hd & Hf & Hn).
    split_and!.
    + intros perm H. now apply Hd, H1d.
    + intros content H. apply (Hf content). now apply H1f.
    + intros content H Hall. apply Hn; [|now apply H1f].
      apply List.Forall_forall. intros zf Hin. now apply (Hall entries).
  - split_and!; [exact H1d | | intros content H _; now apply H1f].
    intros content H. exists content. now apply H1f.
Qed.

End Extract.

End ZipMore.

Module ZipPaths.
Import GoStrings GoStringsFacts Expand Zip ZipFacts ZipMore.

Section Extract.
Variable IsPathSeparator : ascii -> bool.
Variable mkdir_denied : list string -> bool.
Variable create_denied : list string -> bool.
Variable zip_OpenReader : string -> option (list zipFile).

Local Abbreviation target := (target IsPathSeparator).
Local Abbreviation Join := (Join IsPathSeparator).
Local Abbreviation components := (components IsPathSeparator).
Local Abbreviation Clean := (Clean IsPathSeparator).
Local Abbreviation MkdirAll := (MkdirAll mkdir_denied).
Local Abbreviation way_free := (way_free mkdir_denied).
Local Abbreviation extract_entries :=
  (extract_entries IsPathSeparator mkdir_denied create_denied).
Local Abbreviation extractZip :=
  (extractZip IsPathSeparator mkdir_denied create_denied zip_OpenReader).
Local Abbreviation plain := (fun a => negb (IsPathSeparator a)).


(** X17: when no entry name has a [..] component, every regular file
    that [extractZip] creates or changes lies under the target
    directory. *)
Theorem extractZip_stays_inside path extractTo entries fs p content
    (Hopen : zip_OpenReader path = Some entries)
    (Hnames : Forall (fun zf => ~ In ".." (components (Name zf))) entries)
    (Hnew : snd (extractZip path extractTo fs) !! p = Some (File content))
    (Hold : fs !! p <> Some (File content)) :
  Clean extractTo `prefix_of` p.
Proof.
  unfold Zip.extractZip in Hnew. rewrite Hopen in Hnew.
  set (root := Clean extractTo) in *.
  set (fs1 := fst (MkdirAll fs root perm_0700)) in *.
  destruct (decide (Forall (fun zf => IsDir zf = false -> target root zf <> p)
                      entries)) as [Hall|Hsome].
  - exfalso. apply Hold.
    apply (MkdirAll_file mkdir_denied perm_0700 fs root).
    now apply (extract_entries_lookup IsPathSeparator mkdir_denied create_denied
                 root entries fs1 p).
  - apply not_Forall_Exists in Hsome; [|intros zf; apply _].
    apply Exists_exists in Hsome as (zf & Hin & Hzf). cbn in Hzf.
    assert (Heq : target root zf = p).
    { destruct (decide (target root zf = p)) as [H|H]; [exact H|].
      exfalso. apply Hzf. intros _. exact H. }
    rewrite <- Heq. unfold Zip.target, Zip.Join.
    apply fold_clean_prefix.
    rewrite Forall_forall in Hnames. now apply Hnames.
Qed.

Lemma components_plain c :
  all_bytes plain c = true -> components c = [c].
Proof.
  induction c as [|a c IH]; intros H; [reflexivity|].
  simpl in H. apply andb_true_iff in H as [Ha Hc].
  cbn [Zip.components]. apply negb_true_iff in Ha. rewrite Ha.
  now rewrite (IH Hc).
Qed.

Lemma components_cut a sep b :
  all_bytes plain a = true -> IsPathSeparator sep = true ->
  components (a +:+ String sep b) = a :: components b.
Proof.
  intros Ha Hsep. induction a as [|x a IH].
  - rewrite append_nil_l. cbn [Zip.components]. now rewrite Hsep.
  - simpl in Ha. apply andb_true_iff in Ha as [Hx Ha].
    rewrite append_cons. cbn [Zip.components].
    apply negb_true_iff in Hx. rewrite Hx. now rewrite (IH Ha).
Qed.

(** X18: nothing keeps an entry inside the target directory.  Where
    [/] is the only path separator, so that no path has a volume name,
    and the target path has no [..] component and names a directory of
    its own: the name [../c], for a plain name [c], is joined to the
    sibling [c] of the target directory, which is not under the target
    directory unless the target directory is itself named [c]. *)
Theorem Join_parent_escapes (extractTo c : string)
    (Hunix : forall a, IsPathSeparator a = slash a)
    (Htarget : ~ In ".." (components extractTo))
    (Hplain : all_bytes plain c = true)
    (Hname : c <> "" /\ c <> "." /\ c <> "..")
    (Hbelow : Clean extractTo <> [])
    (Hroot : last (Clean extractTo) <> Some c) :
  Join (Clean extractTo) ("../" +:+ c) = removelast (Clean extractTo) ++ [c] /\
  ~ Clean extractTo `prefix_of` Join (Clean extractTo) ("../" +:+ c).
Proof.
  set (root := Clean extractTo) in *.
  assert (Hjoin : Join root ("../" +:+ c) = removelast root ++ [c]).
  { unfold Zip.Join.
    change ("../" +:+ c) with (".." +:+ String "/" c).
    rewrite components_cut, (components_plain c Hplain);
      [|simpl; now rewrite Hunix | now rewrite Hunix].
    cbn [fold_left]. unfold clean_step at 2. cbn.
    unfold clean_step.
    destruct Hname as (H1 & H2 & H3).
    apply String.eqb_neq in H1, H2, H3. now rewrite H1, H2, H3. }
  split; [exact Hjoin|]. rewrite Hjoin. intros Hpre.
  destruct root as [|x root] using rev_ind.
  - now apply Hbelow.
  - rewrite removelast_last in Hpre.
    apply prefix_length_eq in Hpre; [|rewrite !length_app; simpl; lia].
    apply app_inj_tail in Hpre as [_ ->].
    apply Hroot. apply last_snoc.
Qed.

End Extract.


Lemma extractZip_stays_inside_witness :
  ["tmp"; "out"] `prefix_of` ["tmp"; "out"; "a"; "b.txt"].
Proof.
  apply (extractZip_stays_inside slash nothing_denied nothing_denied hello_zip
           "pkg.zip" "/tmp/out"
           [{| Name := "a/b.txt"; IsDir := false; Mode := 420;
               Open := Some {| delivered := "hello"; complete := true |} |}]
           ∅ ["tmp"; "out"; "a"; "b.txt"] "hello").
  - reflexivity.
  - constructor; [|constructor]. vm_compute.
    intros [H|[H|[]]]; discriminate H.
  - vm_compute. reflexivity.
  - rewrite lookup_empty. discriminate.
Defined.

Lemma Join_parent_escapes_witness :
  Join slash ["tmp"; "out"] "../evil.txt" = ["tmp"; "evil.txt"] /\
  ~ ["tmp"; "out"] `prefix_of` Join slash ["tmp"; "out"] "../evil.txt".
Proof.
  apply (Join_parent_escapes slash "/tmp/out" "evil.txt").
  - reflexivity.
  - vm_compute. intros [H|[H|[H|[]]]]; discriminate H.
  - reflexivity.
  - repeat split; discriminate.
  - discriminate.
  - discriminate.
Defined.

(** An archive with such a name is extracted outside the target
    directory. *)
Example extractZip_slip :
  extractZip slash nothing_denied nothing_denied slip_zip "pkg.zip" "/tmp/out" ∅ =
  (None,
   <[["tmp"; "evil.txt"] := File "x"]>
     (<[["tmp"; "out"] := Dir perm_0700]> (<[["tmp"] := Dir perm_0700]> ∅))).
Proof. vm_compute. reflexivity. Qed.

End ZipPaths.

Module ZipEntries.
Import GoStrings GoStringsFacts Zip ZipFacts.

Section Extract.
Variable IsPathSeparator : ascii -> bool.
Variable mkdir_denied : list string -> bool.
Variable create_denied : list string -> bool.

Local Abbreviation target := (target IsPathSeparator).
Local Abbreviation MkdirAll := (MkdirAll mkdir_denied).
Local Abbreviation MkdirAll_go := (MkdirAll_go mkdir_denied).
Local Abbreviation way_free := (way_free mkdir_denied).
Local Abbreviation extract_entries :=
  (extract_entries IsPathSeparator mkdir_denied create_denied).

(** What the loop does with a file entry whose destination can be
    created. *)
Lemma extract_file_entry root zf rest fs :
  let t := target root zf in
  let fs1 := fst (MkdirAll fs (Dir_ t) perm_0777) in
  IsDir zf = false -> t <> [] -> create_denied t = false ->
  way_free fs (Dir_ t) -> (forall perm, fs !! t <> Some (Dir perm)) ->
  extract_entries root (zf :: rest) fs =
  match Open zf with
  | None => (Some (OpenError (Name zf)), <[t := File ""]> fs1)
  | Some source =>
      extract_entries root rest (<[t := File (delivered source)]> fs1)
  end.
Proof.
  intros t fs1 Hkind Hne Hden Hway Hnodir.
  cbn [Zip.extract_entries]. rewrite Hkind.
  change (Zip.Join IsPathSeparator root (Name zf)) with t. fold fs1.
  assert (Hparent : is_dir fs1 (Dir_ t))
    by (apply MkdirAll_dirs; [exact Hway | reflexivity]).
  assert (Hnodir1 : forall perm, fs1 !! t <> Some (Dir perm)).
  { intros perm Hd.
    destruct (MkdirAll_lookup mkdir_denied perm_0777 fs (Dir_ t) t)
      as [H|(_ & _ & H)].
    - fold fs1 in H. rewrite H in Hd. now apply Hnodir in Hd.
    - apply (removelast_neq t Hne).
      apply (anti_symm prefix); [apply removelast_prefix | exact H]. }
  rewrite (Create_ok create_denied fs1 t Hne Hden Hparent Hnodir1).
  destruct (Open zf) as [source|]; [|reflexivity].
  now rewrite insert_insert_eq.
Qed.

(** X19: a file entry that does not open ends the extraction with its
    error after its destination was created: the destination is left as
    an empty file, whatever it held before, and no later entry is
    processed. *)
Theorem extract_entries_open_error root zf rest fs
    (Hkind : IsDir zf = false)
    (Hne : target root zf <> [])
    (Hden : create_denied (target root zf) = false)
    (Hway : way_free fs (Dir_ (target root zf)))
    (Hnodir : forall perm, fs !! target root zf <> Some (Dir perm))
    (Hopen : Open zf = None) :
  fst (extract_entries root (zf :: rest) fs) = Some (OpenError (Name zf)) /\
  snd (extract_entries root (zf :: rest) fs) !! target root zf = Some (File "") /\
  extract_entries root (zf :: rest) fs = extract_entries root [zf] fs.
Proof.
  rewrite !(extract_file_entry root zf _ fs Hkind Hne Hden Hway Hnodir), Hopen.
  cbn [fst snd]. split_and!; try reflexivity. apply lookup_insert_eq.
Qed.

Lemma MkdirAll_go_idem perm todo : forall fs done,
  (forall q, q `prefix_of` done ++ todo -> is_dir fs q) ->
  MkdirAll_go fs done todo perm = (fs, true).
Proof.
  induction todo as [|c todo IH]; intros fs done Hdirs; [reflexivity|].
  cbn [Zip.MkdirAll_go].
  destruct (Hdirs (done ++ [c])) as [Hnil|[perm' Hd]].
  - exists todo. now rewrite <- app_assoc.
  - destruct done; discriminate.
  - rewrite Hd. apply IH. intros q Hq. apply Hdirs.
    now rewrite <- app_assoc in Hq.
Qed.

(** X20: of two file entries with the same destination the later one
    wins without an error: after both, the destination holds what the
    second delivered, and the extraction goes on as if the first had not
    been there. *)
Theorem extract_entries_duplicate root zf1 zf2 rest fs source1 source2
    (Hsame : target root zf2 = target root zf1)
    (Hkind1 : IsDir zf1 = false) (Hkind2 : IsDir zf2 = false)
    (Hne : target root zf1 <> [])
    (Hden : create_denied (target root zf1) = false)
    (Hway : way_free fs (Dir_ (target root zf1)))
    (Hnodir : forall perm, fs !! target root zf1 <> Some (Dir perm))
    (Hopen1 : Open zf1 = Some source1)
    (Hopen2 : Open zf2 = Some source2) :
  extract_entries root (zf1 :: zf2 :: rest) fs =
    extract_entries root (zf2 :: rest) fs /\
  extract_entries root (zf1 :: zf2 :: rest) fs =
    extract_entries root rest
      (<[target root zf1 := File (delivered source2)]>
         (fst (MkdirAll fs (Dir_ (target root zf1)) perm_0777))).
Proof.
  set (t := target root zf1) in *.
  set (fs1 := fst (MkdirAll fs (Dir_ t) perm_0777)).
  assert (Hsecond : extract_entries root (zf2 :: rest) fs =
            extract_entries root rest (<[t := File (delivered source2)]> fs1)).
  { rewrite (extract_file_entry root zf2 rest fs); rewrite ?Hsame; fold t;
      try assumption.
    now rewrite Hopen2. }
  rewrite Hsecond.
  rewrite (extract_file_entry root zf1 _ fs Hkind1 Hne Hden Hway Hnodir), Hopen1.
  fold t. fold fs1.
  assert (Hshort : ~ t `prefix_of` Dir_ t).
  { intros H. apply (removelast_neq t Hne).
    apply (anti_symm prefix); [apply removelast_prefix | exact H]. }
  set (fs3 := <[t := File (delivered source1)]> fs1).
  assert (Hidem : fst (MkdirAll fs3 (Dir_ t) perm_0777) = fs3).
  { unfold Zip.MkdirAll. rewrite MkdirAll_go_idem; [reflexivity|].
    intros q Hq. simpl in Hq.
    destruct (MkdirAll_dirs mkdir_denied perm_0777 fs (Dir_ t) q Hway Hq)
      as [->|[perm Hd]]; [now left|].
    right. exists perm. subst fs3. rewrite lookup_insert_ne; [exact Hd|].
    intros <-. contradiction. }
  rewrite (extract_file_entry root zf2 rest fs3); rewrite ?Hsame; fold t;
    try assumption.
  - rewrite Hopen2, Hidem. subst fs3. rewrite insert_insert_eq. auto.
  - apply way_free_write; [|exact Hshort]. now apply way_free_mkdir.
  - intros perm. subst fs3. now rewrite lookup_insert_eq.
Qed.

End Extract.

Lemma extract_entries_open_error_witness :
  let zf := {| Name := "b.txt"; IsDir := false; Mode := 420; Open := None |} in
  let fs : gmap (list string) node := {[ ["out"; "b.txt"] := File "old" ]} in
  fst (extract_entries slash nothing_denied nothing_denied ["out"] [zf] fs)
    = Some (OpenError "b.txt") /\
  snd (extract_entries slash nothing_denied nothing_denied ["out"] [zf] fs)
    !! ["out"; "b.txt"] = Some (File "").
Proof.
  intros zf fs.
  destruct (extract_entries_open_error slash nothing_denied nothing_denied
              ["out"] zf [] fs) as (H1 & H2 & _).
  - reflexivity.
  - discriminate.
  - reflexivity.
  - intros q Hq. split; [|reflexivity].
    intros [content H]. apply lookup_singleton_Some in H as [<- _].
    apply prefix_length in Hq. simpl in Hq. lia.
  - intros perm H. apply lookup_singleton_Some in H as [_ H]. discriminate H.
  - reflexivity.
  - split; [exact H1 | exact H2].
Defined.

Lemma extract_entries_duplicate_witness :
  let one := {| Name := "a.txt"; IsDir := false; Mode := 420;
                Open := Some {| delivered := "one"; complete := true |} |} in
  let two := {| Name := "./a.txt"; IsDir := false; Mode := 420;
                Open := Some {| delivered := "two"; complete := true |} |} in
  extract_entries slash nothing_denied nothing_denied ["out"] [one; two] ∅ =
  (None, <[["out"; "a.txt"] := File "two"]> (<[["out"] := Dir perm_0777]> ∅)).
Proof.
  intros one two.
  destruct (extract_entries_duplicate slash nothing_denied nothing_denied
              ["out"] one two [] ∅
              {| delivered := "one"; complete := true |}
              {| delivered := "two"; complete := true |}) as [_ H].
  - reflexivity.
  - reflexivity.
  - reflexivity.
  - discriminate.
  - reflexivity.
  - intros q _. split; [|reflexivity].
    intros [content H]. now rewrite lookup_empty in H.
  - intros perm H. now rewrite lookup_empty in H.
  - reflexivity.
  - reflexivity.
  - rewrite H. vm_compute. reflexivity.
Defined.

End ZipEntries.
